(** * SnowState.js: the state machine of src/stateMachine.ts

    A shallow embedding of the class [SnowState] and the properties of
    its registration, state-change, trigger, dispatch and history code.

    Modelling conventions.
    - The plain objects [stateObjects] and [defaultEventMethods] are used
      by the class as maps from names to values: a finite map holds
      their own keys, and a lookup by name also sees the members they
      inherit from [Object.prototype] ([toString], [constructor], ...),
      see [lookupState], [hasState] and [eventExists].  A built-in
      object found that way has no [enter], no [leave] and no function
      under the name of an attached event; the further properties of
      built-in functions ([call], [length], ...) and the effect of an
      assignment under the name [__proto__] are left out.  The two [Map]s
      of transitions are finite maps, and the [Set] [addedEvents] is a
      finite set.
    - The instance itself is an object with a prototype: its own
      properties (the class fields and the event methods attached at run
      time) are kept apart from the methods of the class prototype,
      because [checkForIllegalKeys] asks for own properties only while
      [addMethodToStateMachine] reads through the prototype chain.
    - User functions (enter, leave, event methods) are opaque: calling
      one appends the call, with the arguments it received, to an effect
      trace.  A transition condition is a thunk returning a boolean; its
      evaluation is recorded in the trace too.  User functions are taken
      to return normally and not to call back into the machine.
    - [number] arguments are integers ([Z]): sizes, times and clock
      values are integral and exact, so [NaN], fractions and the rounding
      of doubles are outside the model; [Date.now()] is an input of the
      operation that reads the clock.
    - A thrown exception ends the operation; what was mutated before the
      throw stays mutated, so every operation returns the machine it
      leaves behind together with its trace and its result. *)

From Stdlib Require Import ZArith String List.
From stdpp Require Import gmap strings list fin_maps.
Import ListNotations.
Open Scope string_scope.
Open Scope Z_scope.
Open Scope list_scope.

(** ** Values, user functions and effects *)

(** [data?: any]: the values the examples need. *)
Inductive Value : Type :=
  | VUndefined
  | VString (s : string)
  | VNumber (z : Z)
  | VBoolean (b : bool).

(** [StateMethod] and [LeaveEnterMethod]: an opaque user function. *)
Inductive Method : Type :=
  | Fn (name : string).

(** [TransitionCondition = () => boolean]. *)
Record TransitionCondition : Type := mkCondition {
  cond_name : string;
  cond_run : unit -> bool
}.

Inductive Effect : Type :=
  | Call (f : Method) (args : list Value)
  | Eval (c : string) (result : bool).

(** The value a called function sees as its first parameter. *)
Definition firstParam (args : list Value) : Value :=
  match args with
  | [] => VUndefined
  | v :: _ => v
  end.

(** Modelled from the spec: the class [SnowStateError] is imported from
    ./errors, which is not among the sources.  The engine constructs it
    with a message only; section 7 of the spec calls the throw sites
    NameCollisionError ("Cannot use existing method/property name"),
    UnknownStateError ("... does not exist") and InvalidArgumentError
    ("History size must be at least 1", "Time cannot be negative").
    [TypeError] is the error of the language itself, raised on reading a
    property of [undefined]. *)
Inductive Exn : Type :=
  | SnowStateError (message : string)
  | TypeError.

Inductive SNOWSTATE_DEFINEDNESS : Type :=
  | NOT_DEFINED
  | DEFINED
  | DEFAULT.

Definition SONWSTATE_WILDCARD_TRANSITION_NAME : string := "*".
Definition SNOWSTATE_REFLEXIVE_TRANSITION_NAME : string := "=".

(** ** The data of an instance *)

Record TransitionRecord : Type := mkTransition {
  destState : string;
  condition : option TransitionCondition;
  leaveFunc : option Method;
  enterFunc : option Method
}.

(** A state object: its own properties in [Object.keys] order. *)
Definition StateObject : Type := list (string * Method).

Fixpoint getProp (o : StateObject) (key : string) : option Method :=
  match o with
  | [] => None
  | (k, f) :: rest => if String.eqb k key then Some f else getProp rest key
  end.

Definition keys (o : StateObject) : list string := map fst o.

Record Machine : Type := mkMachine {
  state : string;
  defaultEventMethods : gmap string Method;
  stateObjects : gmap string StateObject;
  previousState : option string;
  stateHistory : list string;
  isHistoryEnabled : bool;
  maxHistorySize : Z;
  stateStartTime : Z;
  addedEvents : gset string;
  stateTransitions : gmap string (gmap string (list TransitionRecord));
  wildcardTransitions : gmap string (list TransitionRecord);
  (** the own properties created by [(this as any)[eventName] = ...] *)
  eventMethods : gset string
}.

(** [new SnowState(initialState)], the clock reading [now]. *)
Definition createSnowState (initialState : string) (now : Z) : Machine :=
  {| state := initialState;
     defaultEventMethods := ∅;
     stateObjects := ∅;
     previousState := None;
     stateHistory := [];
     isHistoryEnabled := false;
     maxHistorySize := 10;
     stateStartTime := now;
     addedEvents := {["enter"; "leave"]};
     stateTransitions := ∅;
     wildcardTransitions := ∅;
     eventMethods := ∅ |}.

(** ** Operations: state, trace and exceptions *)

Record Outcome (A : Type) : Type := mkOutcome {
  trace : list Effect;
  final : Machine;
  result : Exn + A
}.
Arguments mkOutcome {A} _ _ _.
Arguments trace {A} _.
Arguments final {A} _.
Arguments result {A} _.

Definition Op (A : Type) : Type := Machine -> Outcome A.

Definition ret {A} (a : A) : Op A :=
  fun m => mkOutcome [] m (inr a).

Definition throw {A} (e : Exn) : Op A :=
  fun m => mkOutcome [] m (inl e).

Definition bind {A B} (c : Op A) (k : A -> Op B) : Op B :=
  fun m =>
    let r := c m in
    match result r with
    | inl e => mkOutcome (trace r) (final r) (inl e)
    | inr a =>
        let r' := k a (final r) in
        mkOutcome (trace r ++ trace r') (final r') (result r')
    end.

Notation "x <- c ;; k" := (bind c (fun x => k))
  (at level 100, c at next level, right associativity).
Notation "c ;;; k" := (bind c (fun _ => k))
  (at level 100, right associativity).

Definition this : Op Machine := fun m => mkOutcome [] m (inr m).
Definition update (f : Machine -> Machine) : Op unit :=
  fun m => mkOutcome [] (f m) (inr tt).
Definition emit (e : Effect) : Op unit :=
  fun m => mkOutcome [e] m (inr tt).

(** Calling a user function. *)
Definition call (f : Method) (args : list Value) : Op unit := emit (Call f args).

(** Evaluating a transition condition. *)
Definition evalCondition (c : TransitionCondition) : Op bool :=
  let b := cond_run c tt in
  emit (Eval (cond_name c) b) ;;; ret b.

(** Field assignments. *)
Definition set_state (v : string) (m : Machine) : Machine :=
  mkMachine v (defaultEventMethods m) (stateObjects m) (previousState m)
    (stateHistory m) (isHistoryEnabled m) (maxHistorySize m) (stateStartTime m)
    (addedEvents m) (stateTransitions m) (wildcardTransitions m) (eventMethods m).
Definition set_defaultEventMethods (v : gmap string Method) (m : Machine) : Machine :=
  mkMachine (state m) v (stateObjects m) (previousState m)
    (stateHistory m) (isHistoryEnabled m) (maxHistorySize m) (stateStartTime m)
    (addedEvents m) (stateTransitions m) (wildcardTransitions m) (eventMethods m).
Definition set_stateObjects (v : gmap string StateObject) (m : Machine) : Machine :=
  mkMachine (state m) (defaultEventMethods m) v (previousState m)
    (stateHistory m) (isHistoryEnabled m) (maxHistorySize m) (stateStartTime m)
    (addedEvents m) (stateTransitions m) (wildcardTransitions m) (eventMethods m).
Definition set_previousState (v : option string) (m : Machine) : Machine :=
  mkMachine (state m) (defaultEventMethods m) (stateObjects m) v
    (stateHistory m) (isHistoryEnabled m) (maxHistorySize m) (stateStartTime m)
    (addedEvents m) (stateTransitions m) (wildcardTransitions m) (eventMethods m).
Definition set_stateHistory (v : list string) (m : Machine) : Machine :=
  mkMachine (state m) (defaultEventMethods m) (stateObjects m) (previousState m)
    v (isHistoryEnabled m) (maxHistorySize m) (stateStartTime m)
    (addedEvents m) (stateTransitions m) (wildcardTransitions m) (eventMethods m).
Definition set_isHistoryEnabled (v : bool) (m : Machine) : Machine :=
  mkMachine (state m) (defaultEventMethods m) (stateObjects m) (previousState m)
    (stateHistory m) v (maxHistorySize m) (stateStartTime m)
    (addedEvents m) (stateTransitions m) (wildcardTransitions m) (eventMethods m).
Definition set_maxHistorySize (v : Z) (m : Machine) : Machine :=
  mkMachine (state m) (defaultEventMethods m) (stateObjects m) (previousState m)
    (stateHistory m) (isHistoryEnabled m) v (stateStartTime m)
    (addedEvents m) (stateTransitions m) (wildcardTransitions m) (eventMethods m).
Definition set_stateStartTime (v : Z) (m : Machine) : Machine :=
  mkMachine (state m) (defaultEventMethods m) (stateObjects m) (previousState m)
    (stateHistory m) (isHistoryEnabled m) (maxHistorySize m) v
    (addedEvents m) (stateTransitions m) (wildcardTransitions m) (eventMethods m).
Definition set_addedEvents (v : gset string) (m : Machine) : Machine :=
  mkMachine (state m) (defaultEventMethods m) (stateObjects m) (previousState m)
    (stateHistory m) (isHistoryEnabled m) (maxHistorySize m) (stateStartTime m)
    v (stateTransitions m) (wildcardTransitions m) (eventMethods m).
Definition set_stateTransitions
    (v : gmap string (gmap string (list TransitionRecord))) (m : Machine) : Machine :=
  mkMachine (state m) (defaultEventMethods m) (stateObjects m) (previousState m)
    (stateHistory m) (isHistoryEnabled m) (maxHistorySize m) (stateStartTime m)
    (addedEvents m) v (wildcardTransitions m) (eventMethods m).
Definition set_wildcardTransitions
    (v : gmap string (list TransitionRecord)) (m : Machine) : Machine :=
  mkMachine (state m) (defaultEventMethods m) (stateObjects m) (previousState m)
    (stateHistory m) (isHistoryEnabled m) (maxHistorySize m) (stateStartTime m)
    (addedEvents m) (stateTransitions m) v (eventMethods m).
Definition set_eventMethods (v : gset string) (m : Machine) : Machine :=
  mkMachine (state m) (defaultEventMethods m) (stateObjects m) (previousState m)
    (stateHistory m) (isHistoryEnabled m) (maxHistorySize m) (stateStartTime m)
    (addedEvents m) (stateTransitions m) (wildcardTransitions m) v.

(** ** Plain objects and [Object.prototype] *)

(** The string-keyed members every plain object inherits. *)
Definition objectPrototypeMembers : list string :=
  [ "constructor"; "__defineGetter__"; "__defineSetter__"; "hasOwnProperty";
    "__lookupGetter__"; "__lookupSetter__"; "isPrototypeOf";
    "propertyIsEnumerable"; "toString"; "valueOf"; "__proto__";
    "toLocaleString" ].

Definition inList (key : string) (l : list string) : bool :=
  existsb (String.eqb key) l.

(** The inherited members that are functions: [__proto__] is an accessor
    whose value is the prototype of the object it is read from. *)
Definition objectPrototypeFunction (key : string) : bool :=
  inList key objectPrototypeMembers && negb (String.eqb key "__proto__").

(** What [this.stateObjects[name]] gives: the table stored under the
    name, else the built-in object inherited under that name, else
    [undefined]. *)
Inductive StateLookup : Type :=
  | Table (o : StateObject)
  | Builtin
  | Undefined.

Definition lookupState (m : Machine) (name : string) : StateLookup :=
  match stateObjects m !! name with
  | Some o => Table o
  | None => if inList name objectPrototypeMembers then Builtin else Undefined
  end.

(** ** State runtime *)

(** [Array.prototype.shift]. *)
Definition shift {A} (l : list A) : list A := tl l.

(** [stateName in this.stateObjects]: the operator finds own keys and
    inherited members alike. *)
Definition hasState (m : Machine) (stateName : string) : bool :=
  match lookupState m stateName with
  | Undefined => false
  | _ => true
  end.

(** [object.leave?.()] / [object.enter?.()] on [this.stateObjects[name]]:
    reading the property of an object that is [undefined] is a TypeError;
    the optional call skips a missing function, and a built-in object has
    neither property. *)
Definition callOptionalNoArgs (o : StateLookup) (key : string) : Op unit :=
  match o with
  | Undefined => throw TypeError
  | Builtin => ret tt
  | Table obj =>
      match getProp obj key with
      | Some f => call f []
      | None => ret tt
      end
  end.

Definition pushHistory (m : Machine) : Machine :=
  if isHistoryEnabled m then
    let pushed := stateHistory m ++ [state m] in
    if Z.of_nat (length pushed) >? maxHistorySize m
    then set_stateHistory (shift pushed) m
    else set_stateHistory pushed m
  else m.

Definition change (stateName : string) (leaveFunc enterFunc : option Method)
    (data : Value) (now : Z) : Op unit :=
  m <- this ;;
  if negb (hasState m stateName) then
    throw (SnowStateError ("State '" +:+ stateName +:+ "' does not exist"))
  else
    let currentStateObject := lookupState m (state m) in
    match leaveFunc with
    | Some f => call f [data]
    | None => callOptionalNoArgs currentStateObject "leave"
    end ;;;
    update (fun m => set_previousState (Some (state m)) m) ;;;
    update pushHistory ;;;
    update (set_state stateName) ;;;
    update (set_stateStartTime now) ;;;
    newStateObject <- (fun m => ret (lookupState m stateName) m) ;;
    match enterFunc with
    | Some f => call f [data]
    | None => callOptionalNoArgs newStateObject "enter"
    end.

Definition stateIs (stateName : string) (stateToCheck : option string)
    (m : Machine) : bool :=
  String.eqb stateName (state m).

Definition stateExists (stateName : string) (m : Machine) : bool :=
  hasState m stateName.

Definition getCurrentState (m : Machine) : string := state m.
Definition getPreviousState (m : Machine) : option string := previousState m.

(** ** History *)

Definition historyEnable : Op unit := update (set_isHistoryEnabled true).
Definition historyDisable : Op unit := update (set_isHistoryEnabled false).
Definition historyIsEnabled (m : Machine) : bool := isHistoryEnabled m.

(** [array.slice(start)]: a negative [start] counts from the end. *)
Definition slice {A} (l : list A) (start : Z) : list A :=
  let len := Z.of_nat (length l) in
  let k := if start <? 0 then Z.max (len + start) 0 else Z.min start len in
  drop (Z.to_nat k) l.

Definition historySetMaxSize (size : Z) : Op unit :=
  if size <? 1 then
    throw (SnowStateError "History size must be at least 1")
  else
    update (set_maxHistorySize size) ;;;
    m <- this ;;
    if Z.of_nat (length (stateHistory m)) >? size
    then update (set_stateHistory (slice (stateHistory m) (- size)))
    else ret tt.

Definition historyGetMaxSize (m : Machine) : Z := maxHistorySize m.
Definition historyGet (m : Machine) : list string := stateHistory m.

Definition getTime (now : Z) (m : Machine) : Z := now - stateStartTime m.

Definition setTime (time : Z) (now : Z) : Op unit :=
  if time <? 0 then throw (SnowStateError "Time cannot be negative")
  else update (set_stateStartTime (now - time)).

(** ** The instance as an object: own properties and the prototype chain *)

Definition instanceFields : list string :=
  [ "state"; "defaultEventMethods"; "stateObjects"; "previousState";
    "stateHistory"; "isHistoryEnabled"; "maxHistorySize"; "stateStartTime";
    "addedEvents"; "stateTransitions"; "wildcardTransitions";
    "emptyLeaveMethod" ].

Definition classMethods : list string :=
  [ "constructor"; "checkForIllegalKeys"; "addMethodToStateMachine";
    "eventSetDefaultMethod"; "add"; "change"; "stateIs"; "stateExists";
    "getStates"; "getCurrentState"; "getPreviousState"; "historyEnable";
    "historyDisable"; "historyIsEnabled"; "historySetMaxSize";
    "historyGetMaxSize"; "historyGet"; "getTime"; "setTime"; "enter";
    "leave"; "eventExists"; "eventGetCurrentLeaveMethod"; "addTransition";
    "trigger"; "addWildcardTransition"; "addReflexiveTransition";
    "transitionExists" ].

Inductive Member : Type :=
  | EventMethod      (* own: attached by addMethodToStateMachine *)
  | OwnField         (* own: a field of the class *)
  | ClassMethod      (* inherited from SnowState.prototype *)
  | ObjectMember     (* inherited from Object.prototype *)
  | NoMember.        (* this[key] is undefined *)

(** Where [this[key]] is found. *)
Definition lookupMember (m : Machine) (key : string) : Member :=
  if bool_decide (key ∈ eventMethods m) then EventMethod
  else if inList key instanceFields then OwnField
  else if inList key classMethods then ClassMethod
  else if inList key objectPrototypeMembers then ObjectMember
  else NoMember.

(** [Object.getOwnPropertyDescriptor(this, key)] is defined. *)
Definition hasOwnProperty (m : Machine) (key : string) : bool :=
  match lookupMember m key with
  | EventMethod | OwnField => true
  | _ => false
  end.

(** Whether the value of a field is truthy. *)
Definition fieldTruthy (m : Machine) (key : string) : bool :=
  if String.eqb key "state" then negb (String.eqb (state m) "")
  else if String.eqb key "previousState" then
    match previousState m with
    | Some s => negb (String.eqb s "")
    | None => false
    end
  else if String.eqb key "isHistoryEnabled" then isHistoryEnabled m
  else if String.eqb key "maxHistorySize" then negb (maxHistorySize m =? 0)
  else if String.eqb key "stateStartTime" then negb (stateStartTime m =? 0)
  else true.

(** [this[key]] is truthy. *)
Definition truthyMember (m : Machine) (key : string) : bool :=
  match lookupMember m key with
  | EventMethod | ClassMethod | ObjectMember => true
  | OwnField => fieldTruthy m key
  | NoMember => false
  end.

(** ** State registration *)

Definition join (sep : string) (l : list string) : string := String.concat sep l.

Definition checkForIllegalKeys (eventNames : list string) : Op unit :=
  m <- this ;;
  let illegalKeys :=
    List.filter (fun key => hasOwnProperty m key
                            && negb (bool_decide (key ∈ addedEvents m)))
                eventNames in
  if Z.of_nat (length illegalKeys) >? 0 then
    throw (SnowStateError
             ("Cannot use existing method/property name: " +:+ join ", " illegalKeys))
  else ret tt.

(** The function attached under an event name by [addMethodToStateMachine].
    It exists only for a name under which [this[eventName]] was falsy,
    hence for no member of [Object.prototype]: its two lookups by
    [eventName] find own properties only. *)
Definition dispatch (eventName : string) : Op unit :=
  m <- this ;;
  match lookupState m (state m) with
  | Undefined => throw TypeError
  | Builtin =>
      match defaultEventMethods m !! eventName with
      | Some method => call method []
      | None => ret tt
      end
  | Table currentState =>
      match getProp currentState eventName with
      | Some stateMethod => call stateMethod []
      | None =>
          match defaultEventMethods m !! eventName with
          | Some method => call method []
          | None => ret tt
          end
      end
  end.

(** It is reached only with names that passed [checkForIllegalKeys], so
    the assignment never lands on a field of the class. *)
Definition addMethodToStateMachine (eventName : string) : Op unit :=
  m <- this ;;
  if truthyMember m eventName then ret tt
  else
    update (fun m => set_addedEvents ({[eventName]} ∪ addedEvents m) m) ;;;
    update (fun m => set_eventMethods ({[eventName]} ∪ eventMethods m) m).

Definition eventSetDefaultMethod (eventName : string) (method : Method) : Op unit :=
  checkForIllegalKeys [eventName] ;;;
  update (fun m => set_defaultEventMethods (<[eventName := method]> (defaultEventMethods m)) m) ;;;
  addMethodToStateMachine eventName.

Fixpoint forEach {A} (l : list A) (f : A -> Op unit) : Op unit :=
  match l with
  | [] => ret tt
  | x :: rest => f x ;;; forEach rest f
  end.

Definition add (stateName : string) (stateObject : StateObject) : Op unit :=
  checkForIllegalKeys (keys stateObject) ;;;
  update (fun m => set_stateObjects (<[stateName := stateObject]> (stateObjects m)) m) ;;;
  forEach (keys stateObject) (fun eventName =>
    m <- this ;;
    if negb (truthyMember m eventName)
    then addMethodToStateMachine eventName
    else ret tt).

(** ** Event handling *)

(** [this.defaultEventMethods.enter?.()] and its like. *)
Definition callDefault (m : Machine) (eventName : string) : Op unit :=
  match defaultEventMethods m !! eventName with
  | Some d => call d []
  | None => ret tt
  end.

Definition enter (data : Value) : Op unit :=
  m <- this ;;
  match lookupState m (state m) with
  | Undefined => throw TypeError
  | Builtin => callDefault m "enter"
  | Table currentState =>
      match getProp currentState "enter" with
      | Some f => call f [data]
      | None => callDefault m "enter"
      end
  end.

Definition leave (data : Value) : Op unit :=
  m <- this ;;
  match lookupState m (state m) with
  | Undefined => throw TypeError
  | Builtin => callDefault m "leave"
  | Table currentState =>
      match getProp currentState "leave" with
      | Some f => call f [data]
      | None => callDefault m "leave"
      end
  end.

(** [typeof currentState[eventName] === "function"], for any name: an own
    function of the table, or a function inherited from
    [Object.prototype]; read from a built-in function, [__proto__] is
    [Function.prototype], itself a function. *)
Definition hasFunction (m : Machine) (eventName : string) : bool :=
  match lookupState m (state m) with
  | Undefined => false
  | Table currentState =>
      match getProp currentState eventName with
      | Some _ => true
      | None => objectPrototypeFunction eventName
      end
  | Builtin =>
      objectPrototypeFunction eventName
      || (String.eqb eventName "__proto__" && negb (String.eqb (state m) "__proto__"))
  end.

(** [this.defaultEventMethods[eventName]] is truthy: an own default or
    an inherited member. *)
Definition hasDefault (m : Machine) (eventName : string) : bool :=
  match defaultEventMethods m !! eventName with
  | Some _ => true
  | None => inList eventName objectPrototypeMembers
  end.

Definition eventExists (eventName : string) (m : Machine) : SNOWSTATE_DEFINEDNESS :=
  if hasFunction m eventName then DEFINED
  else if hasDefault m eventName then DEFAULT
  else NOT_DEFINED.

(** ** Transitions *)

(** [sourceState: SourceState | SourceState[]] (the wildcard is the
    string ["*"]). *)
Inductive SourceArg : Type :=
  | Single (s : string)
  | Multiple (l : list string).

(** [map.get(key)!.push(record)] after [if (!map.has(key)) map.set(key, [])]. *)
Definition pushRecord (name : string) (r : TransitionRecord)
    (table : gmap string (list TransitionRecord)) : gmap string (list TransitionRecord) :=
  <[name := default [] (table !! name) ++ [r]]> table.

Definition is_wildcard (sourceState : SourceArg) : bool :=
  match sourceState with
  | Single s => String.eqb s SONWSTATE_WILDCARD_TRANSITION_NAME
  | Multiple _ => false
  end.

Definition sourceStateArray (sourceState : SourceArg) : list string :=
  match sourceState with
  | Single s => [s]
  | Multiple l => l
  end.

Definition addTransition (transitionName : string) (sourceState : SourceArg)
    (dest : string) (cond : option TransitionCondition)
    (leaveF enterF : option Method) : Op unit :=
  let record := mkTransition dest cond leaveF enterF in
  if is_wildcard sourceState then
    update (fun m => set_wildcardTransitions
                       (pushRecord transitionName record (wildcardTransitions m)) m)
  else
    forEach (sourceStateArray sourceState) (fun source =>
      m <- this ;;
      if negb (hasState m source) then
        throw (SnowStateError ("Source state '" +:+ source +:+ "' does not exist"))
      else if negb (hasState m dest) then
        throw (SnowStateError ("Destination state '" +:+ dest +:+ "' does not exist"))
      else ret tt) ;;;
    forEach (sourceStateArray sourceState) (fun source =>
      update (fun m =>
        let transitions := default ∅ (stateTransitions m !! source) in
        set_stateTransitions
          (<[source := pushRecord transitionName record transitions]> (stateTransitions m)) m)).

Definition addWildcardTransition (transitionName dest : string)
    (cond : option TransitionCondition) (leaveF enterF : option Method) : Op unit :=
  addTransition transitionName (Single SONWSTATE_WILDCARD_TRANSITION_NAME)
    dest cond leaveF enterF.

Definition addReflexiveTransition (transitionName : string) (sourceState : string)
    (cond : option TransitionCondition) (leaveF enterF : option Method) : Op unit :=
  addTransition transitionName (Single sourceState)
    SNOWSTATE_REFLEXIVE_TRANSITION_NAME cond leaveF enterF.

(** [!transition.condition || transition.condition()]. *)
Definition passes (transition : TransitionRecord) : Op bool :=
  match condition transition with
  | None => ret true
  | Some c => evalCondition c
  end.

(** [transition.destState == "=" ? this.state : transition.destState]. *)
Definition resolveDest (m : Machine) (transition : TransitionRecord) : string :=
  if String.eqb (destState transition) SNOWSTATE_REFLEXIVE_TRANSITION_NAME
  then state m
  else destState transition.

(** The loop [for (const transition of transitions) { if (...) return
    this.change(...) }]: [true] when the loop returned from [trigger]. *)
Fixpoint fireFirst (transitions : list TransitionRecord) (data : Value) (now : Z)
    : Op bool :=
  match transitions with
  | [] => ret false
  | transition :: rest =>
      pass <- passes transition ;;
      if pass then
        m <- this ;;
        change (resolveDest m transition) (leaveFunc transition)
               (enterFunc transition) data now ;;;
        ret true
      else fireFirst rest data now
  end.

Definition trigger (transitionName : string) (data : Value) (now : Z) : Op unit :=
  m <- this ;;
  returned <-
    match stateTransitions m !! state m with
    | Some transitionsOfState =>
        match transitionsOfState !! transitionName with
        | Some transitions =>
            if Z.of_nat (length transitions) >? 0
            then fireFirst transitions data now
            else ret false
        | None => ret false
        end
    | None => ret false
    end ;;
  if returned then ret tt
  else
    m <- this ;;
    match wildcardTransitions m !! transitionName with
    | Some wildcards => fireFirst wildcards data now ;;; ret tt
    | None => ret tt
    end.

Definition transitionExists (transitionName sourceState : string) (m : Machine)
    : SNOWSTATE_DEFINEDNESS :=
  match stateTransitions m !! sourceState with
  | Some transitionsOfState =>
      if transitionsOfState !! transitionName is Some _ then DEFINED
      else if wildcardTransitions m !! transitionName is Some _ then DEFINED
      else NOT_DEFINED
  | None =>
      if wildcardTransitions m !! transitionName is Some _ then DEFINED
      else NOT_DEFINED
  end.

(** ** Running an operation on a machine *)

Definition run {A} (c : Op A) (m : Machine) : Outcome A := c m.

(** ** Vocabulary of the properties *)

(** An outcome reached after the effects [tr]. *)
Definition preceded {A} (tr : list Effect) (o : Outcome A) : Outcome A :=
  mkOutcome (tr ++ trace o) (final o) (result o).

(** The calls of the leave phase and of the enter phase of [change]. *)
Definition leaveCalls (m : Machine) (leaveF : option Method) (data : Value)
    : list Effect :=
  match leaveF with
  | Some f => [Call f [data]]
  | None =>
      match stateObjects m !! state m ≫= (fun o => getProp o "leave") with
      | Some f => [Call f []]
      | None => []
      end
  end.

Definition enterCalls (m : Machine) (stateName : string) (enterF : option Method)
    (data : Value) : list Effect :=
  match enterF with
  | Some f => [Call f [data]]
  | None =>
      match stateObjects m !! stateName ≫= (fun o => getProp o "enter") with
      | Some f => [Call f []]
      | None => []
      end
  end.

(** The machine after the bookkeeping of [change]. *)
Definition committed (m : Machine) (stateName : string) (now : Z) : Machine :=
  set_stateStartTime now
    (set_state stateName (pushHistory (set_previousState (Some (state m)) m))).

(** What an effect handed to the function it called as first parameter. *)
Definition receivedData (e : Effect) : Value :=
  match e with
  | Call _ args => firstParam args
  | Eval _ _ => VUndefined
  end.

(** The buffer never grows beyond its cap. *)
Definition historyBounded (m : Machine) : Prop :=
  1 <= maxHistorySize m /\ Z.of_nat (length (stateHistory m)) <= maxHistorySize m.

(** The records kept for a source state and a transition name, and the
    wildcard records of a name (empty when there is no list). *)
Definition transitionsOf (m : Machine) (sourceState transitionName : string)
    : list TransitionRecord :=
  default [] (stateTransitions m !! sourceState ≫= (fun t => t !! transitionName)).

Definition specificList (m : Machine) (transitionName : string)
    : list TransitionRecord :=
  transitionsOf m (state m) transitionName.

Definition wildcardList (m : Machine) (transitionName : string)
    : list TransitionRecord :=
  default [] (wildcardTransitions m !! transitionName).

(** A record passes when it has no condition or its condition holds. *)
Definition passesNow (r : TransitionRecord) : bool :=
  match condition r with
  | None => true
  | Some c => cond_run c tt
  end.

Definition rejected (r : TransitionRecord) : Prop := passesNow r = false.

(** The evaluations of the conditions of a list of records, in order. *)
Definition guardTrace (l : list TransitionRecord) : list Effect :=
  flat_map (fun r =>
              match condition r with
              | Some c => [Eval (cond_name c) (cond_run c tt)]
              | None => []
              end) l.

(** The outcome of the change a record asks for, seen from the loop of
    [trigger]. *)
Definition fired (data : Value) (now : Z) (m : Machine) (r : TransitionRecord)
    : Outcome bool :=
  let c := run (change (resolveDest m r) (leaveFunc r) (enterFunc r) data now) m in
  mkOutcome (trace c) (final c)
            (match result c with inl e => inl e | inr _ => inr true end).

(** The three ways a change can end. *)
Inductive ChangeCase (m : Machine) (stateName : string) (leaveF enterF : option Method)
    (data : Value) (now : Z) : Outcome unit -> Prop :=
  | change_unknown :
      hasState m stateName = false ->
      ChangeCase m stateName leaveF enterF data now
        (mkOutcome [] m
           (inl (SnowStateError ("State '" +:+ stateName +:+ "' does not exist"))))
  | change_no_current :
      leaveF = None -> hasState m (state m) = false ->
      ChangeCase m stateName leaveF enterF data now (mkOutcome [] m (inl TypeError))
  | change_done :
      hasState m stateName = true ->
      ChangeCase m stateName leaveF enterF data now
        (mkOutcome (leaveCalls m leaveF data ++ enterCalls m stateName enterF data)
                   (committed m stateName now) (inr tt)).

(** ** Machines used in the examples *)

Definition idleLeave : Method := Fn "idle.leave".
Definition idleEnter : Method := Fn "idle.enter".
Definition walkLeave : Method := Fn "walk.leave".
Definition walkEnter : Method := Fn "walk.enter".

(** Two states, both with enter and leave functions; current state "idle". *)
Definition demo : Machine :=
  final (run (add "idle" [("enter", idleEnter); ("leave", idleLeave)] ;;;
              add "walk" [("enter", walkEnter); ("leave", walkLeave)])
             (createSnowState "idle" 1000)).

(** Four states without callbacks, history enabled with room for two. *)
Definition abcd : Machine :=
  final (run (add "A" [] ;;; add "B" [] ;;; add "C" [] ;;; add "D" [] ;;;
              historyEnable ;;; historySetMaxSize 2)
             (createSnowState "A" 0)).

Definition never : TransitionCondition := mkCondition "never" (fun _ => false).
Definition always : TransitionCondition := mkCondition "always" (fun _ => true).

(** [demo] with a third state "run" and transitions named "go": from
    "idle" a record whose condition fails, then one whose condition
    holds, then one without condition, and a wildcard without condition;
    and transitions named "stop" whose conditions all fail. *)
Definition goDemo : Machine :=
  final (run (add "run" [] ;;;
              addTransition "go" (Single "idle") "run" (Some never) None None ;;;
              addTransition "go" (Single "idle") "walk" (Some always) None None ;;;
              addTransition "go" (Single "idle") "run" None None None ;;;
              addWildcardTransition "go" "run" None None None ;;;
              addTransition "stop" (Single "idle") "walk" (Some never) None None ;;;
              addWildcardTransition "stop" "run" (Some never) None None)
             demo).

(** A machine created in "idle" without registering it, with a default
    for the event "update". *)
Definition unregisteredDemo : Machine :=
  final (run (eventSetDefaultMethod "update" (Fn "default.update"))
             (createSnowState "idle" 0)).

(** ** Vocabulary of the further properties *)

(** The last [cap] entries of a list. *)
Definition lastN {A} (cap : Z) (l : list A) : list A :=
  drop (length l - Z.to_nat cap)%nat l.

(** [fsm.change(s1); fsm.change(s2); ...] without overrides. *)
Fixpoint changeAll (path : list string) (data : Value) (now : Z) : Op unit :=
  match path with
  | [] => ret tt
  | stateName :: rest =>
      change stateName None None data now ;;; changeAll rest data now
  end.

(** The states left along a path that starts in [current]. *)
Definition statesLeft (current : string) (path : list string) : list string :=
  take (length path) (current :: path).

(** The names [checkForIllegalKeys] objects to. *)
Definition illegalKeys (m : Machine) (eventNames : list string) : list string :=
  List.filter (fun key => hasOwnProperty m key
                          && negb (bool_decide (key ∈ addedEvents m)))
              eventNames.

(** The machine after [addMethodToStateMachine]. *)
Definition attach (eventName : string) (m : Machine) : Machine :=
  if truthyMember m eventName then m
  else set_eventMethods ({[eventName]} ∪ eventMethods m)
         (set_addedEvents ({[eventName]} ∪ addedEvents m) m).

Definition attachAll (eventNames : list string) (m : Machine) : Machine :=
  fold_left (fun m eventName => attach eventName m) eventNames m.

(** Two machines that differ at most in the attached and added events. *)
Definition sameButEvents (m m' : Machine) : Prop :=
  state m' = state m
  /\ defaultEventMethods m' = defaultEventMethods m
  /\ stateObjects m' = stateObjects m
  /\ previousState m' = previousState m
  /\ stateHistory m' = stateHistory m
  /\ isHistoryEnabled m' = isHistoryEnabled m
  /\ maxHistorySize m' = maxHistorySize m
  /\ stateStartTime m' = stateStartTime m
  /\ stateTransitions m' = stateTransitions m
  /\ wildcardTransitions m' = wildcardTransitions m.

(** The message of the first failed check of [addTransition], if any. *)
Fixpoint checkSources (m : Machine) (sources : list string) (dest : string)
    : option string :=
  match sources with
  | [] => None
  | source :: rest =>
      if negb (hasState m source) then
        Some ("Source state '" +:+ source +:+ "' does not exist")
      else if negb (hasState m dest) then
        Some ("Destination state '" +:+ dest +:+ "' does not exist")
      else checkSources m rest dest
  end.

(** The machine after a record was pushed for one source state, and for
    a list of source states. *)
Definition registerTransition (transitionName : string) (r : TransitionRecord)
    (m : Machine) (source : string) : Machine :=
  set_stateTransitions
    (<[source := pushRecord transitionName r
                   (default ∅ (stateTransitions m !! source))]>
       (stateTransitions m)) m.

Definition registerAll (transitionName : string) (r : TransitionRecord)
    (sources : list string) (m : Machine) : Machine :=
  fold_left (registerTransition transitionName r) sources m.

(** ** Programs: sequences of calls on an instance *)

Inductive Command : Type :=
  | CAdd (stateName : string) (stateObject : StateObject)
  | CEventSetDefaultMethod (eventName : string) (method : Method)
  | CChange (stateName : string) (leaveF enterF : option Method) (data : Value) (now : Z)
  | CTrigger (transitionName : string) (data : Value) (now : Z)
  | CAddTransition (transitionName : string) (sourceState : SourceArg) (dest : string)
      (cond : option TransitionCondition) (leaveF enterF : option Method)
  | CHistoryEnable
  | CHistoryDisable
  | CHistorySetMaxSize (size : Z)
  | CSetTime (time now : Z)
  | CEnter (data : Value)
  | CLeave (data : Value)
  | CEvent (eventName : string).

(** [fsm[eventName]()] for an attached event; the name of something that
    is not attached is not a function to call here (the methods of the
    class are the other commands). *)
Definition callEvent (eventName : string) : Op unit :=
  m <- this ;;
  match lookupMember m eventName with
  | EventMethod => dispatch eventName
  | _ => throw TypeError
  end.

Definition exec (c : Command) : Op unit :=
  match c with
  | CAdd stateName stateObject => add stateName stateObject
  | CEventSetDefaultMethod eventName method => eventSetDefaultMethod eventName method
  | CChange stateName leaveF enterF data now => change stateName leaveF enterF data now
  | CTrigger transitionName data now => trigger transitionName data now
  | CAddTransition transitionName sourceState dest cond leaveF enterF =>
      addTransition transitionName sourceState dest cond leaveF enterF
  | CHistoryEnable => historyEnable
  | CHistoryDisable => historyDisable
  | CHistorySetMaxSize size => historySetMaxSize size
  | CSetTime time now => setTime time now
  | CEnter data => enter data
  | CLeave data => leave data
  | CEvent eventName => callEvent eventName
  end.

(** The machine after a program; a call that throws is caught by the
    caller and the program goes on. *)
Fixpoint runAll (program : list Command) (m : Machine) : Machine :=
  match program with
  | [] => m
  | c :: rest => runAll rest (final (run (exec c) m))
  end.

(** The machines a user of the class can get through its public methods. *)
Definition reachable (m : Machine) : Prop :=
  exists initialState now program,
    m = runAll program (createSnowState initialState now).

(** A name taken by a field, a method of the class or a member of
    [Object.prototype]. *)
Definition reserved (key : string) : bool :=
  inList key instanceFields || inList key classMethods
  || inList key objectPrototypeMembers.

(** What every reachable machine satisfies. *)
Definition wellFormed (m : Machine) : Prop :=
  historyBounded m
  /\ addedEvents m = {["enter"; "leave"]} ∪ eventMethods m
  /\ (forall key, key ∈ eventMethods m -> reserved key = false)
  /\ (forall source name r,
        In r (transitionsOf m source name) ->
        hasState m source = true /\ hasState m (destState r) = true).

(** Two machines with the same registry, transitions and events. *)
Definition sameRegistry (m m' : Machine) : Prop :=
  stateObjects m' = stateObjects m
  /\ stateTransitions m' = stateTransitions m
  /\ addedEvents m' = addedEvents m
  /\ eventMethods m' = eventMethods m.


(** The calls that build [goDemo]. *)
Definition goProgram : list Command :=
  [ CAdd "idle" [("enter", idleEnter); ("leave", idleLeave)];
    CAdd "walk" [("enter", walkEnter); ("leave", walkLeave)];
    CAdd "run" [];
    CAddTransition "go" (Single "idle") "run" (Some never) None None;
    CAddTransition "go" (Single "idle") "walk" (Some always) None None;
    CAddTransition "go" (Single "idle") "run" None None None;
    CAddTransition "go" (Single "*") "run" None None None;
    CAddTransition "stop" (Single "idle") "walk" (Some never) None None;
    CAddTransition "stop" (Single "*") "run" (Some never) None None ].

(** * Properties *)

(** ** Equations of the operations *)

Ltac unfold_op :=
  unfold run, bind, ret, throw, this, update, emit, call in *; simpl in *.

(** A conjunction of closed equations, each settled by evaluation. *)
Ltac by_evaluation :=
  cbv zeta;
  repeat match goal with |- _ /\ _ => split end;
  vm_compute; reflexivity.

Lemma bind_eq {A B} (c : Op A) (k : A -> Op B) m :
  bind c k m
  = match result (c m) with
    | inl e => mkOutcome (trace (c m)) (final (c m)) (inl e)
    | inr a => preceded (trace (c m)) (k a (final (c m)))
    end.
Proof. unfold bind, preceded. destruct (result (c m)); reflexivity. Qed.

Lemma this_eq m : this m = mkOutcome [] m (inr m).
Proof. reflexivity. Qed.

Lemma preceded_nil {A} (o : Outcome A) : preceded [] o = o.
Proof. destruct o; reflexivity. Qed.

Lemma preceded_preceded {A} tr1 tr2 (o : Outcome A) :
  preceded tr1 (preceded tr2 o) = preceded (tr1 ++ tr2) o.
Proof. unfold preceded; simpl. rewrite app_assoc. reflexivity. Qed.

Lemma hasState_own m stateName :
  is_Some (stateObjects m !! stateName) -> hasState m stateName = true.
Proof. unfold hasState, lookupState. intros [o ->]. reflexivity. Qed.

Lemma hasState_false m stateName :
  hasState m stateName = false <->
  stateObjects m !! stateName = None
  /\ inList stateName objectPrototypeMembers = false.
Proof.
  unfold hasState, lookupState.
  destruct (stateObjects m !! stateName); [ split; [ | intros [? _] ]; discriminate | ].
  destruct (inList stateName objectPrototypeMembers); split;
    try tauto; try discriminate; intros [_ ?]; discriminate.
Qed.

Lemma hasState_true m stateName :
  hasState m stateName = true <->
  is_Some (stateObjects m !! stateName)
  \/ inList stateName objectPrototypeMembers = true.
Proof.
  unfold hasState, lookupState.
  destruct (stateObjects m !! stateName) as [o | ]; [ split; eauto | ].
  destruct (inList stateName objectPrototypeMembers); split;
    try tauto; try discriminate; intros [[? ?] | ?]; discriminate.
Qed.

Lemma lookupState_same m m' name :
  stateObjects m' = stateObjects m -> lookupState m' name = lookupState m name.
Proof. unfold lookupState. intros ->. reflexivity. Qed.

Lemma hasState_same m m' name :
  stateObjects m' = stateObjects m -> hasState m' name = hasState m name.
Proof. unfold hasState. intros Hobj. rewrite (lookupState_same m m' name Hobj). reflexivity. Qed.

(** States are only ever added. *)
Lemma hasState_insert m m' stateName stateObject name :
  stateObjects m' = <[stateName := stateObject]> (stateObjects m) ->
  hasState m name = true -> hasState m' name = true.
Proof.
  intros Hobj Hold. apply hasState_true. apply hasState_true in Hold.
  destruct Hold as [Hown | Hinherited]; [ left | right; exact Hinherited ].
  rewrite Hobj, lookup_insert_is_Some.
  destruct (decide (stateName = name)); [ left; assumption | right; tauto ].
Qed.

(** ** change *)

Lemma update_bind {B} (f : Machine -> Machine) (k : unit -> Op B) m :
  bind (update f) k m = k tt (f m).
Proof.
  rewrite bind_eq. unfold update. cbn [result trace final]. apply preceded_nil.
Qed.

Lemma stateObjects_pushHistory m : stateObjects (pushHistory m) = stateObjects m.
Proof.
  unfold pushHistory. destruct (isHistoryEnabled m); [ | reflexivity ].
  destruct (_ >? _); reflexivity.
Qed.

(** The optional call of [leave] or [enter] on a lookup that is defined. *)
Lemma callOptionalNoArgs_defined m m' name key :
  hasState m name = true ->
  run (callOptionalNoArgs (lookupState m name) key) m'
  = mkOutcome
      (match stateObjects m !! name ≫= (fun o => getProp o key) with
       | Some f => [Call f []]
       | None => []
       end) m' (inr tt).
Proof.
  unfold hasState, lookupState, callOptionalNoArgs, run.
  destruct (stateObjects m !! name) as [o | ]; cbn [mbind option_bind].
  - intros _. destruct (getProp o key); reflexivity.
  - destruct (inList name objectPrototypeMembers); [ reflexivity | discriminate ].
Qed.

Lemma change_unregistered_dest m stateName leaveF enterF data now :
  hasState m stateName = false ->
  run (change stateName leaveF enterF data now) m
  = mkOutcome [] m (inl (SnowStateError ("State '" +:+ stateName +:+ "' does not exist"))).
Proof.
  intros Hnone. unfold change, run. rewrite bind_eq, this_eq.
  cbn [result trace final]. rewrite Hnone. reflexivity.
Qed.

(** [change] goes through when the destination is found in
    [stateObjects] and the leave phase can run: an override is given or
    the current state is found there too. *)
Lemma change_goes_through m stateName leaveF enterF data now :
  hasState m stateName = true ->
  is_Some leaveF \/ hasState m (state m) = true ->
  run (change stateName leaveF enterF data now) m
  = mkOutcome (leaveCalls m leaveF data ++ enterCalls m stateName enterF data)
              (committed m stateName now) (inr tt).
Proof.
  intros Hdest Hleave. unfold change, run. rewrite bind_eq, this_eq.
  cbn [result trace final]. rewrite Hdest. cbn [negb]. rewrite preceded_nil, bind_eq.
  assert (Hphase :
    (match leaveF with
     | Some f => call f [data]
     | None => callOptionalNoArgs (lookupState m (state m)) "leave"
     end) m = mkOutcome (leaveCalls m leaveF data) m (inr tt)).
  { unfold leaveCalls. destruct leaveF as [lf | ]; [ reflexivity | ].
    destruct Hleave as [[x Hx] | Hcur]; [ discriminate | ].
    apply (callOptionalNoArgs_defined m m (state m) "leave" Hcur). }
  rewrite Hphase. cbn [result trace final]. unfold preceded at 1.
  rewrite !update_bind, bind_eq. unfold ret. cbn [result trace final].
  rewrite preceded_nil.
  fold (committed m stateName now).
  assert (Hlook : lookupState (committed m stateName now) stateName
                  = lookupState m stateName).
  { apply lookupState_same. unfold committed. simpl.
    rewrite stateObjects_pushHistory. reflexivity. }
  rewrite Hlook.
  assert (Henter :
    (match enterF with
     | Some f => call f [data]
     | None => callOptionalNoArgs (lookupState m stateName) "enter"
     end) (committed m stateName now)
    = mkOutcome (enterCalls m stateName enterF data) (committed m stateName now) (inr tt)).
  { unfold enterCalls. destruct enterF as [ef | ]; [ reflexivity | ].
    apply (callOptionalNoArgs_defined m _ stateName "enter" Hdest). }
  rewrite Henter. reflexivity.
Qed.

(** In particular when the destination, and the current state unless a
    leave override is given, are registered states. *)
Lemma change_ok m stateName leaveF enterF data now :
  is_Some (stateObjects m !! stateName) ->
  is_Some leaveF \/ is_Some (stateObjects m !! state m) ->
  run (change stateName leaveF enterF data now) m
  = mkOutcome (leaveCalls m leaveF data ++ enterCalls m stateName enterF data)
              (committed m stateName now) (inr tt).
Proof.
  intros Hdest Hleave. apply change_goes_through.
  - apply hasState_own. exact Hdest.
  - destruct Hleave as [Hl | Hcur]; [ left; exact Hl | right; apply hasState_own; exact Hcur ].
Qed.

(** Leaving a current state that is not found in [stateObjects], without
    an override, reads the [leave] property of [undefined]. *)
Lemma change_from_unregistered m stateName enterF data now :
  hasState m stateName = true ->
  hasState m (state m) = false ->
  run (change stateName None enterF data now) m = mkOutcome [] m (inl TypeError).
Proof.
  intros Hdest Hcur. unfold change, run. rewrite bind_eq, this_eq.
  cbn [result trace final]. rewrite Hdest. cbn [negb]. rewrite preceded_nil, bind_eq.
  unfold hasState in Hcur.
  destruct (lookupState m (state m)); try discriminate. reflexivity.
Qed.

Lemma change_cases m stateName leaveF enterF data now :
  ChangeCase m stateName leaveF enterF data now
    (run (change stateName leaveF enterF data now) m).
Proof.
  destruct (hasState m stateName) eqn:Hdest.
  - destruct leaveF as [lf | ].
    + rewrite change_goes_through by eauto. constructor. exact Hdest.
    + destruct (hasState m (state m)) eqn:Hcur.
      * rewrite change_goes_through by eauto. constructor. exact Hdest.
      * rewrite change_from_unregistered by assumption.
        apply change_no_current; [ reflexivity | assumption ].
  - rewrite change_unregistered_dest by assumption. constructor. assumption.
Qed.

Lemma change_succeeds m stateName leaveF enterF data now :
  result (run (change stateName leaveF enterF data now) m) = inr tt ->
  run (change stateName leaveF enterF data now) m
  = mkOutcome (leaveCalls m leaveF data ++ enterCalls m stateName enterF data)
              (committed m stateName now) (inr tt).
Proof.
  destruct (change_cases m stateName leaveF enterF data now);
    simpl; intros Hres; try discriminate. reflexivity.
Qed.

(** A name that was never added and is no member of [Object.prototype]
    is refused, before anything else happens. *)
Lemma change_refuses_unknown_name m stateName leaveF enterF data now :
  stateObjects m !! stateName = None ->
  inList stateName objectPrototypeMembers = false ->
  run (change stateName leaveF enterF data now) m
  = mkOutcome [] m (inl (SnowStateError ("State '" +:+ stateName +:+ "' does not exist"))).
Proof.
  intros Hnone Hplain. apply change_unregistered_dest.
  apply hasState_false. split; assumption.
Qed.

(** C2: the check of [change] is [stateName in this.stateObjects], and
    [stateObjects] is a plain object: on the machine with the states
    "idle" and "walk", [change("toString")] does not throw although no
    state of that name was ever added.  The leave function of "idle" is
    called, "toString" becomes the current state and "idle" the previous
    one.  A name that is no member of [Object.prototype], such as "run",
    is refused with "State 'run' does not exist" and nothing happens. *)
Theorem change_accepts_inherited_name :
  let r := run (change "toString" None None VUndefined 5) demo in
  stateObjects demo !! "toString" = None
  /\ result r = inr tt
  /\ trace r = [Call idleLeave []]
  /\ getCurrentState (final r) = "toString"
  /\ getPreviousState (final r) = Some "idle"
  /\ stateStartTime (final r) = 5
  /\ run (change "run" None None VUndefined 5) demo
     = mkOutcome [] demo (inl (SnowStateError "State 'run' does not exist")).
Proof. by_evaluation. Qed.

(** In every change, only an override receives [data]: a registered
    leave or enter function is called without arguments. *)
Lemma change_call_arguments m stateName leaveF enterF data now f args :
  In (Call f args) (trace (run (change stateName leaveF enterF data now) m)) ->
  args = [] \/ (args = [data] /\ (leaveF = Some f \/ enterF = Some f)).
Proof.
  destruct (change_cases m stateName leaveF enterF data now);
    cbn [trace]; try (intros []).
  rewrite in_app_iff. unfold leaveCalls, enterCalls.
  intros [Hin | Hin].
  - destruct leaveF as [lf | ].
    + destruct Hin as [Heq | []]. inversion Heq; subst. right; auto.
    + destruct (_ ≫= _); simpl in Hin; [ | contradiction ].
      destruct Hin as [Heq | []]. inversion Heq. left; reflexivity.
  - destruct enterF as [ef | ].
    + destruct Hin as [Heq | []]. inversion Heq; subst. right; auto.
    + destruct (_ ≫= _); simpl in Hin; [ | contradiction ].
      destruct Hin as [Heq | []]. inversion Heq. left; reflexivity.
Qed.

(** A change calls at most two functions. *)
Lemma change_trace_length m stateName leaveF enterF data now :
  (length (trace (run (change stateName leaveF enterF data now) m)) <= 2)%nat.
Proof.
  destruct (change_cases m stateName leaveF enterF data now);
    cbn [trace]; try (simpl; lia).
  rewrite length_app. unfold leaveCalls, enterCalls.
  destruct leaveF, enterF; repeat (destruct (_ ≫= _)); simpl; lia.
Qed.

(** C3: on the machine with the states "idle" and "walk", both with
    enter and leave functions, [change("walk", undefined, undefined,
    "payload")] calls the leave function of "idle" and the enter function
    of "walk" without any argument: the parameter they see is
    [undefined], not the data; the same change with two overrides hands
    the data to both. *)
Theorem change_registered_callbacks_get_no_data :
  let data := VString "payload" in
  let r := run (change "walk" None None data 2000) demo in
  let o := run (change "walk" (Some (Fn "myLeave")) (Some (Fn "myEnter")) data 2000) demo in
  result r = inr tt
  /\ trace r = [Call idleLeave []; Call walkEnter []]
  /\ map receivedData (trace r) = [VUndefined; VUndefined]
  /\ trace o = [Call (Fn "myLeave") [data]; Call (Fn "myEnter") [data]]
  /\ map receivedData (trace o) = [data; data].
Proof. by_evaluation. Qed.

(** The sibling method [enter(data)] does pass its argument on. *)
Example enter_passes_data :
  trace (run (enter (VString "payload")) demo) = [Call idleEnter [VString "payload"]].
Proof. vm_compute. reflexivity. Qed.

(** Unless an event of that name was attached, [this.on] is undefined. *)
Lemma on_is_not_a_member m :
  "on" ∉ eventMethods m -> lookupMember m "on" = NoMember.
Proof.
  intros Hnot. unfold lookupMember.
  rewrite bool_decide_eq_false_2 by exact Hnot. reflexivity.
Qed.

(** C4: the instance has no member [on] (neither an own property nor a
    method of the class), so no listener can be registered, and a change
    that goes through calls the leave and the enter function and nothing
    else: no function receives (destState, sourceState, transitionName),
    whether the change is made directly or through [trigger]. *)
Theorem change_notifies_nobody :
  lookupMember demo "on" = NoMember
  /\ inList "on" classMethods = false
  /\ run (change "walk" None None VUndefined 2000) demo
     = mkOutcome [Call idleLeave []; Call walkEnter []]
                 (committed demo "walk" 2000) (inr tt)
  /\ trace (run (trigger "go" VUndefined 7) goDemo)
     = [Eval "never" false; Eval "always" true; Call idleLeave []; Call walkEnter []].
Proof. by_evaluation. Qed.

(** ** stateIs *)

(** C10: [stateIs] does not look at its optional second argument: the
    result is true exactly when the first argument is the current state,
    whatever [stateToCheck] is. *)
Theorem stateIs_ignores_stateToCheck m (a : string) (b : option string) :
  (stateIs a b m = true <-> a = getCurrentState m)
  /\ stateIs a b m = stateIs a None m.
Proof.
  unfold stateIs, getCurrentState. split; [ apply String.eqb_eq | reflexivity ].
Qed.

(** ** The history buffer *)

Lemma set_stateHistory_same m : set_stateHistory (stateHistory m) m = m.
Proof. destruct m; reflexivity. Qed.

Lemma slice_negative {A} (l : list A) (n : Z) :
  1 <= n -> Z.of_nat (length l) > n ->
  slice l (- n) = drop (length l - Z.to_nat n)%nat l.
Proof.
  intros Hn Hlen. unfold slice.
  destruct (- n <? 0) eqn:Hneg; [ | apply Z.ltb_ge in Hneg; lia ].
  f_equal. lia.
Qed.

Lemma historySetMaxSize_throws m n :
  n < 1 ->
  run (historySetMaxSize n) m
  = mkOutcome [] m (inl (SnowStateError "History size must be at least 1")).
Proof.
  intros Hn. unfold historySetMaxSize.
  apply Z.ltb_lt in Hn. rewrite Hn. reflexivity.
Qed.

Lemma historySetMaxSize_ok m n :
  1 <= n ->
  run (historySetMaxSize n) m
  = mkOutcome []
      (set_stateHistory
         (drop (length (stateHistory m) - Z.to_nat n)%nat (stateHistory m))
         (set_maxHistorySize n m))
      (inr tt).
Proof.
  intros Hn. unfold historySetMaxSize.
  destruct (n <? 1) eqn:Hlt; [ apply Z.ltb_lt in Hlt; lia | ].
  unfold_op.
  destruct (Z.of_nat (length (stateHistory m)) >? n) eqn:Hgt.
  - simpl. rewrite slice_negative by lia. reflexivity.
  - simpl.
    replace (length (stateHistory m) - Z.to_nat n)%nat with 0%nat by lia.
    rewrite drop_0.
    change (stateHistory m) with (stateHistory (set_maxHistorySize n m)) at 1.
    rewrite set_stateHistory_same. reflexivity.
Qed.

(** C8: [historySetMaxSize n] with [n < 1] throws "History size must be
    at least 1" (InvalidArgumentError in the spec) and leaves the machine,
    buffer and cap included, as it was; with [n >= 1] it sets the cap to
    [n] and keeps the most recent [n] entries of the buffer, dropping the
    oldest ones (the whole buffer when it holds no more than [n]). *)
Theorem historySetMaxSize_spec m n :
  (n < 1 ->
     let r := run (historySetMaxSize n) m in
     result r = inl (SnowStateError "History size must be at least 1")
     /\ final r = m
     /\ historyGet (final r) = historyGet m
     /\ historyGetMaxSize (final r) = historyGetMaxSize m)
  /\
  (1 <= n ->
     let r := run (historySetMaxSize n) m in
     let kept := historyGet (final r) in
     result r = inr tt
     /\ historyGetMaxSize (final r) = n
     /\ kept = drop (length (historyGet m) - Z.to_nat n)%nat (historyGet m)
     /\ length kept = Nat.min (length (historyGet m)) (Z.to_nat n)
     /\ (exists oldest, historyGet m = oldest ++ kept)
     /\ (Z.of_nat (length (historyGet m)) <= n -> kept = historyGet m)).
Proof.
  split.
  - intros Hn r. subst r. rewrite historySetMaxSize_throws by exact Hn.
    simpl. tauto.
  - intros Hn r kept. subst r kept. rewrite historySetMaxSize_ok by exact Hn.
    unfold historyGet, historyGetMaxSize. simpl.
    split; [ reflexivity | ]. split; [ reflexivity | ]. split; [ reflexivity | ].
    split; [ rewrite length_drop; lia | ].
    split.
    + exists (take (length (stateHistory m) - Z.to_nat n)%nat (stateHistory m)).
      symmetry. apply take_drop.
    + intros Hle.
      replace (length (stateHistory m) - Z.to_nat n)%nat with 0%nat by lia.
      apply drop_0.
Qed.

Lemma historySetMaxSize_spec_witness :
  result (run (historySetMaxSize 0) abcd)
  = inl (SnowStateError "History size must be at least 1")
  /\ final (run (historySetMaxSize 0) abcd) = abcd
  /\ historyGet (final (run (historySetMaxSize 2)
                            (set_stateHistory ["a"; "b"; "c"] abcd)))
     = drop 1 ["a"; "b"; "c"].
Proof.
  destruct (proj1 (historySetMaxSize_spec abcd 0)) as (Hres & Hfinal & _); [ lia | ].
  split; [ exact Hres | ]. split; [ exact Hfinal | ].
  destruct (proj2 (historySetMaxSize_spec (set_stateHistory ["a"; "b"; "c"] abcd) 2))
    as (_ & _ & Hkept & _); [ lia | ].
  exact Hkept.
Defined.

Lemma historyBounded_create initialState now :
  historyBounded (createSnowState initialState now).
Proof. unfold historyBounded; simpl; lia. Qed.

Lemma pushHistory_enabled m :
  isHistoryEnabled m = true ->
  stateHistory (pushHistory m)
  = if Z.of_nat (length (stateHistory m ++ [state m])) >? maxHistorySize m
    then shift (stateHistory m ++ [state m])
    else stateHistory m ++ [state m].
Proof.
  intros Hen. unfold pushHistory. rewrite Hen.
  destruct (_ >? _); reflexivity.
Qed.

Lemma historyBounded_change m stateName leaveF enterF data now :
  historyBounded m ->
  historyBounded (final (run (change stateName leaveF enterF data now) m)).
Proof.
  intros [Hmax Hlen].
  destruct (change_cases m stateName leaveF enterF data now);
    cbn [final]; try (split; assumption).
  unfold historyBounded, committed, pushHistory. simpl.
  destruct (isHistoryEnabled m); simpl; [ | split; assumption ].
  destruct (_ >? _) eqn:Hgt; simpl; split; try assumption.
  - unfold shift. rewrite length_tl, length_app in *. simpl in *. lia.
  - rewrite Z.gtb_ltb in Hgt. apply Z.ltb_ge in Hgt. exact Hgt.
Qed.

Lemma historyBounded_historySetMaxSize m n :
  historyBounded m -> historyBounded (final (run (historySetMaxSize n) m)).
Proof.
  intros Hb. destruct (Z.lt_ge_cases n 1) as [Hn | Hn].
  - rewrite historySetMaxSize_throws by exact Hn. exact Hb.
  - rewrite historySetMaxSize_ok by exact Hn.
    unfold historyBounded. simpl. split; [ exact Hn | ].
    rewrite length_drop. lia.
Qed.

(** C5: with history enabled, a change that goes through appends the
    state being left (not the destination) to the buffer and then drops
    the oldest entry when the buffer is longer than the cap, so that the
    most recent entries up to the cap remain; the buffer of a new machine
    is empty, so the initial state is recorded only when it is left; with
    cap 2, A -> B -> C -> D leaves the history [B; C]. *)
Theorem change_appends_source_to_history :
  (forall m stateName leaveF enterF data now,
     historyIsEnabled m = true ->
     result (run (change stateName leaveF enterF data now) m) = inr tt ->
     let pushed := historyGet m ++ [getCurrentState m] in
     let after := historyGet (final (run (change stateName leaveF enterF data now) m)) in
     after = (if Z.of_nat (length pushed) >? historyGetMaxSize m
              then shift pushed else pushed)
     /\ (historyBounded m ->
           last after = Some (getCurrentState m)
           /\ after = drop (length pushed - Z.to_nat (historyGetMaxSize m))%nat pushed))
  /\ (forall initialState now, historyGet (createSnowState initialState now) = [])
  /\ historyGet
       (final (run (change "B" None None VUndefined 1 ;;;
                    change "C" None None VUndefined 2 ;;;
                    change "D" None None VUndefined 3) abcd))
     = ["B"; "C"].
Proof.
  split; [ | split; [ reflexivity | vm_compute; reflexivity ] ].
  intros m stateName leaveF enterF data now Hen Hres pushed after.
  unfold historyIsEnabled, historyGetMaxSize, getCurrentState in *.
  assert (Hafter : after = if Z.of_nat (length pushed) >? maxHistorySize m
                           then shift pushed else pushed).
  { subst after. rewrite change_succeeds by assumption. cbn [final].
    unfold historyGet, committed. cbn [stateHistory set_stateStartTime set_state].
    rewrite pushHistory_enabled by exact Hen. reflexivity. }
  split; [ exact Hafter | ].
  intros [Hmax Hlen]. rewrite Hafter. clear Hafter after.
  assert (Hp : length pushed = S (length (stateHistory m))).
  { subst pushed. unfold historyGet. rewrite length_app. simpl. lia. }
  destruct (Z.of_nat (length pushed) >? maxHistorySize m) eqn:Hgt.
  - rewrite Z.gtb_ltb in Hgt. apply Z.ltb_lt in Hgt.
    replace (length pushed - Z.to_nat (maxHistorySize m))%nat with 1%nat by lia.
    split; [ | destruct pushed; reflexivity ].
    subst pushed. unfold historyGet in *.
    destruct (stateHistory m) as [ | x rest ]; simpl in *; [ lia | ].
    unfold shift. simpl. apply last_snoc.
  - rewrite Z.gtb_ltb in Hgt. apply Z.ltb_ge in Hgt.
    replace (length pushed - Z.to_nat (maxHistorySize m))%nat with 0%nat by lia.
    split; [ apply last_snoc | reflexivity ].
Qed.

Lemma change_appends_source_to_history_witness :
  historyIsEnabled abcd = true /\
  result (run (change "B" None None VUndefined 1) abcd) = inr tt /\
  historyGet (final (run (change "B" None None VUndefined 1) abcd)) = ["A"].
Proof.
  assert (Hen : historyIsEnabled abcd = true) by (vm_compute; reflexivity).
  assert (Hres : result (run (change "B" None None VUndefined 1) abcd) = inr tt)
    by (vm_compute; reflexivity).
  split; [ exact Hen | ]. split; [ exact Hres | ].
  destruct change_appends_source_to_history as [Hgen _].
  destruct (Hgen abcd "B" None None VUndefined 1 Hen Hres) as [Hafter _].
  rewrite Hafter. vm_compute. reflexivity.
Defined.

(** ** Registering transitions: lists grow at the end *)

Lemma pushRecord_lookup name r (table : gmap string (list TransitionRecord)) :
  pushRecord name r table !! name = Some (default [] (table !! name) ++ [r]).
Proof. unfold pushRecord. apply lookup_insert_eq. Qed.

Lemma addWildcardTransition_appends m transitionName dest cond leaveF enterF :
  let r := run (addWildcardTransition transitionName dest cond leaveF enterF) m in
  result r = inr tt
  /\ wildcardList (final r) transitionName
     = wildcardList m transitionName ++ [mkTransition dest cond leaveF enterF].
Proof.
  unfold addWildcardTransition, addTransition, wildcardList, run. simpl.
  split; [ reflexivity | ]. rewrite pushRecord_lookup. reflexivity.
Qed.

Lemma addTransition_appends m transitionName sourceState dest cond leaveF enterF :
  sourceState <> SONWSTATE_WILDCARD_TRANSITION_NAME ->
  is_Some (stateObjects m !! sourceState) ->
  is_Some (stateObjects m !! dest) ->
  let r := run (addTransition transitionName (Single sourceState) dest cond leaveF enterF) m in
  result r = inr tt
  /\ transitionsOf (final r) sourceState transitionName
     = transitionsOf m sourceState transitionName
         ++ [mkTransition dest cond leaveF enterF].
Proof.
  intros Hsrc Hs Hd. apply hasState_own in Hs, Hd.
  unfold addTransition, transitionsOf, run. simpl.
  apply String.eqb_neq in Hsrc. rewrite Hsrc.
  unfold_op. rewrite Hs, Hd. simpl.
  split; [ reflexivity | ].
  rewrite lookup_insert_eq. simpl. rewrite pushRecord_lookup.
  destruct (stateTransitions m !! sourceState); reflexivity.
Qed.

(** A reflexive transition on a named source is checked like any other
    destination: ["="] has to be a registered state. *)
Example addReflexiveTransition_checks_destination :
  run (addReflexiveTransition "reset" "idle" None None None) demo
  = mkOutcome [] demo (inl (SnowStateError "Destination state '=' does not exist")).
Proof. vm_compute. reflexivity. Qed.

(** ** trigger *)

Lemma guardTrace_app l1 l2 : guardTrace (l1 ++ l2) = guardTrace l1 ++ guardTrace l2.
Proof. unfold guardTrace. apply flat_map_app. Qed.

Lemma guardTrace_no_call l f args : ~ In (Call f args) (guardTrace l).
Proof.
  unfold guardTrace. rewrite in_flat_map. intros (r & _ & Hin).
  destruct (condition r); simpl in Hin; [ | exact Hin ].
  destruct Hin as [Heq | []]. discriminate.
Qed.

Lemma passes_run r m :
  run (passes r) m = mkOutcome (guardTrace [r]) m (inr (passesNow r)).
Proof.
  unfold passes, passesNow, guardTrace, evalCondition. simpl.
  destruct (condition r); reflexivity.
Qed.

Section Scan.

Variables (data : Value) (now : Z) (m : Machine).

Lemma fireFirst_cons r rest :
  run (fireFirst (r :: rest) data now) m
  = preceded (guardTrace [r])
      (if passesNow r then fired data now m r else run (fireFirst rest data now) m).
Proof.
  change (fireFirst (r :: rest) data now)
    with (pass <- passes r ;;
          if pass then
            m <- this ;;
            change (resolveDest m r) (leaveFunc r) (enterFunc r) data now ;;;
            ret true
          else fireFirst rest data now).
  unfold run at 1. rewrite bind_eq. fold (run (passes r) m). rewrite passes_run.
  cbn [result trace final].
  destruct (passesNow r); [ | reflexivity ].
  rewrite bind_eq, this_eq. cbn [result trace final]. rewrite preceded_nil.
  rewrite bind_eq. unfold fired, run, preceded, ret.
  destruct (result (change _ _ _ _ _ m)); cbn [result trace final];
    rewrite ?app_nil_r; reflexivity.
Qed.

Lemma fireFirst_skip pre rest :
  Forall rejected pre ->
  run (fireFirst (pre ++ rest) data now) m
  = preceded (guardTrace pre) (run (fireFirst rest data now) m).
Proof.
  induction 1 as [ | r pre Hr Hpre IH ].
  - simpl. symmetry. apply preceded_nil.
  - change ((r :: pre) ++ rest) with (r :: (pre ++ rest)).
    rewrite fireFirst_cons, Hr, IH.
    rewrite preceded_preceded, <- guardTrace_app. reflexivity.
Qed.

Lemma fireFirst_none l :
  Forall rejected l ->
  run (fireFirst l data now) m = mkOutcome (guardTrace l) m (inr false).
Proof.
  intros Hl. rewrite <- (app_nil_r l) at 1.
  rewrite fireFirst_skip by exact Hl.
  unfold preceded, run. simpl. rewrite app_nil_r. reflexivity.
Qed.

Lemma fireFirst_fires pre r post :
  Forall rejected pre -> passesNow r = true ->
  run (fireFirst (pre ++ r :: post) data now) m
  = preceded (guardTrace (pre ++ [r])) (fired data now m r).
Proof.
  intros Hpre Hr. rewrite fireFirst_skip by exact Hpre.
  rewrite fireFirst_cons, Hr, preceded_preceded, <- guardTrace_app.
  reflexivity.
Qed.

End Scan.

Lemma specific_scan transitionName data now m :
  match stateTransitions m !! state m with
  | Some transitionsOfState =>
      match transitionsOfState !! transitionName with
      | Some transitions =>
          if Z.of_nat (length transitions) >? 0
          then fireFirst transitions data now
          else ret false
      | None => ret false
      end
  | None => ret false
  end m
  = run (fireFirst (specificList m transitionName) data now) m.
Proof.
  unfold specificList, transitionsOf, run.
  destruct (stateTransitions m !! state m) as [t | ]; simpl; [ | reflexivity ].
  destruct (t !! transitionName) as [l | ]; simpl; [ | reflexivity ].
  destruct l; reflexivity.
Qed.

Lemma wildcard_scan transitionName data now m :
  match wildcardTransitions m !! transitionName with
  | Some wildcards => fireFirst wildcards data now ;;; ret tt
  | None => ret tt
  end m
  = let w := run (fireFirst (wildcardList m transitionName) data now) m in
    mkOutcome (trace w) (final w)
              (match result w with inl e => inl e | inr _ => inr tt end).
Proof.
  unfold wildcardList, run.
  destruct (wildcardTransitions m !! transitionName) as [l | ]; simpl; [ | reflexivity ].
  unfold bind, ret. destruct (result (fireFirst l data now m)); simpl;
    rewrite ?app_nil_r; reflexivity.
Qed.

(** [trigger] in terms of the two candidate lists. *)
Lemma trigger_unfold transitionName data now m :
  run (trigger transitionName data now) m
  = let s := run (fireFirst (specificList m transitionName) data now) m in
    match result s with
    | inl e => mkOutcome (trace s) (final s) (inl e)
    | inr true => mkOutcome (trace s) (final s) (inr tt)
    | inr false =>
        let w := run (fireFirst (wildcardList (final s) transitionName) data now)
                     (final s) in
        mkOutcome (trace s ++ trace w) (final w)
                  (match result w with inl e => inl e | inr _ => inr tt end)
    end.
Proof.
  unfold trigger, run at 1.
  rewrite bind_eq, this_eq. cbn [result trace final].
  rewrite preceded_nil, bind_eq, specific_scan.
  destruct (run (fireFirst (specificList m transitionName) data now) m)
    as [tr fm [e | [ | ]]]; cbn [result trace final].
  - reflexivity.
  - unfold preceded, ret. cbn [result trace final]. rewrite app_nil_r. reflexivity.
  - rewrite bind_eq, this_eq. cbn [result trace final].
    rewrite preceded_nil, wildcard_scan. reflexivity.
Qed.

(** C1: [trigger] fires the first record, in insertion order, of the
    list of the current state and the name whose condition is absent or
    holds: the conditions of the records before it and its own are
    evaluated, then that record's [change] is performed and its outcome
    is the outcome of [trigger]; no later record and no wildcard record is
    looked at.  The wildcard list is scanned, in the same way, after
    every record of the specific list (if any) was rejected. *)
Theorem trigger_precedence m transitionName data now :
  (forall pre r post,
     specificList m transitionName = pre ++ r :: post ->
     Forall rejected pre -> passesNow r = true ->
     run (trigger transitionName data now) m
     = preceded (guardTrace (pre ++ [r]))
         (run (change (resolveDest m r) (leaveFunc r) (enterFunc r) data now) m))
  /\
  (Forall rejected (specificList m transitionName) ->
   forall pre r post,
     wildcardList m transitionName = pre ++ r :: post ->
     Forall rejected pre -> passesNow r = true ->
     run (trigger transitionName data now) m
     = preceded (guardTrace (specificList m transitionName) ++ guardTrace (pre ++ [r]))
         (run (change (resolveDest m r) (leaveFunc r) (enterFunc r) data now) m)).
Proof.
  split.
  - intros pre r post Hlist Hpre Hr.
    rewrite trigger_unfold, Hlist, fireFirst_fires by assumption.
    cbv zeta. unfold fired, preceded. cbn [result trace final].
    destruct (result (run (change _ _ _ _ _) m)) as [e | []]; reflexivity.
  - intros Hspec pre r post Hlist Hpre Hr.
    rewrite trigger_unfold, fireFirst_none by assumption.
    cbv zeta. cbn [result trace final].
    rewrite Hlist, fireFirst_fires by assumption.
    unfold fired, preceded. cbn [result trace final]. rewrite app_assoc.
    destruct (result (run (change _ _ _ _ _) m)) as [e | []]; reflexivity.
Qed.

Lemma goDemo_specific_go :
  specificList goDemo "go"
  = [mkTransition "run" (Some never) None None]
      ++ mkTransition "walk" (Some always) None None
      :: [mkTransition "run" None None None].
Proof. vm_compute. reflexivity. Qed.

Lemma trigger_precedence_witness :
  wildcardList goDemo "go" = [mkTransition "run" None None None]
  /\ run (trigger "go" VUndefined 7) goDemo
     = preceded (guardTrace ([mkTransition "run" (Some never) None None]
                             ++ [mkTransition "walk" (Some always) None None]))
         (run (change (resolveDest goDemo (mkTransition "walk" (Some always) None None))
                      None None VUndefined 7) goDemo).
Proof.
  split; [ vm_compute; reflexivity | ].
  apply (proj1 (trigger_precedence goDemo "go" VUndefined 7)
           [mkTransition "run" (Some never) None None]
           (mkTransition "walk" (Some always) None None)
           [mkTransition "run" None None None]).
  - exact goDemo_specific_go.
  - constructor; [ reflexivity | constructor ].
  - reflexivity.
Defined.

Example trigger_go_from_idle :
  let r := run (trigger "go" VUndefined 7) goDemo in
  trace r = [Eval "never" false; Eval "always" true;
             Call idleLeave []; Call walkEnter []]
  /\ state (final r) = "walk" /\ previousState (final r) = Some "idle"
  /\ result r = inr tt.
Proof. by_evaluation. Qed.

(** C6: when every record of the specific list and of the wildcard list
    is rejected (in particular when both lists are absent), [trigger]
    returns normally and leaves the machine as it was: current state,
    previous state, history and start time are unchanged; the trace holds
    the evaluations of the conditions only, no call of a leave or enter
    function. *)
Theorem trigger_no_match m transitionName data now :
  Forall rejected (specificList m transitionName) ->
  Forall rejected (wildcardList m transitionName) ->
  let r := run (trigger transitionName data now) m in
  result r = inr tt
  /\ final r = m
  /\ trace r = guardTrace (specificList m transitionName ++ wildcardList m transitionName)
  /\ (forall f args, ~ In (Call f args) (trace r))
  /\ getCurrentState (final r) = getCurrentState m
  /\ getPreviousState (final r) = getPreviousState m
  /\ historyGet (final r) = historyGet m
  /\ stateStartTime (final r) = stateStartTime m.
Proof.
  intros Hspec Hwild r.
  assert (Hrun : r = mkOutcome (guardTrace (specificList m transitionName
                                            ++ wildcardList m transitionName)) m (inr tt)).
  { subst r. rewrite trigger_unfold, fireFirst_none by assumption.
    cbv zeta. cbn [result trace final].
    rewrite fireFirst_none by assumption.
    cbn [result trace final]. rewrite guardTrace_app. reflexivity. }
  rewrite Hrun. cbn [result trace final].
  repeat match goal with |- _ /\ _ => split end; try reflexivity.
  intros f args. apply guardTrace_no_call.
Qed.

Lemma goDemo_specific_stop :
  specificList goDemo "stop" = [mkTransition "walk" (Some never) None None].
Proof. vm_compute. reflexivity. Qed.

Lemma goDemo_wildcard_stop :
  wildcardList goDemo "stop" = [mkTransition "run" (Some never) None None].
Proof. vm_compute. reflexivity. Qed.

Lemma trigger_no_match_witness :
  result (run (trigger "stop" VUndefined 7) goDemo) = inr tt
  /\ final (run (trigger "stop" VUndefined 7) goDemo) = goDemo.
Proof.
  destruct (trigger_no_match goDemo "stop" VUndefined 7) as (Hres & Hfinal & _).
  - rewrite goDemo_specific_stop. constructor; [ reflexivity | constructor ].
  - rewrite goDemo_wildcard_stop. constructor; [ reflexivity | constructor ].
  - split; [ exact Hres | exact Hfinal ].
Defined.

Example trigger_stop_from_idle :
  run (trigger "stop" VUndefined 7) goDemo
  = mkOutcome [Eval "never" false; Eval "never" false] goDemo (inr tt)
  /\ run (trigger "jump" VUndefined 7) goDemo = mkOutcome [] goDemo (inr tt).
Proof. by_evaluation. Qed.

(** ** Reserved names *)

Lemma checkForIllegalKeys_throws m eventNames key :
  In key eventNames ->
  hasOwnProperty m key = true ->
  key ∉ addedEvents m ->
  exists message,
    run (checkForIllegalKeys eventNames) m = mkOutcome [] m (inl (SnowStateError message)).
Proof.
  intros Hin Hown Hadded.
  unfold run, checkForIllegalKeys. rewrite bind_eq, this_eq. cbn [result trace final].
  set (illegal := List.filter _ eventNames).
  assert (Hk : In key illegal).
  { subst illegal. apply filter_In. split; [ exact Hin | ].
    rewrite Hown. simpl. apply negb_true_iff, bool_decide_eq_false. exact Hadded. }
  destruct illegal as [ | k rest ]; [ destruct Hk | ].
  eexists. reflexivity.
Qed.

(** A name that is an own property of the instance, and not an event
    added before, is refused by [add], which then registers nothing. *)
Lemma add_refuses_own_property m stateName stateObject key :
  In key (keys stateObject) ->
  hasOwnProperty m key = true ->
  key ∉ addedEvents m ->
  exists message,
    run (add stateName stateObject) m = mkOutcome [] m (inl (SnowStateError message)).
Proof.
  intros Hin Hown Hadded.
  destruct (checkForIllegalKeys_throws m (keys stateObject) key Hin Hown Hadded)
    as [message Hcheck].
  exists message. unfold add, run in *. rewrite bind_eq, Hcheck. reflexivity.
Qed.

Lemma eventSetDefaultMethod_refuses_own_property m eventName method :
  hasOwnProperty m eventName = true ->
  eventName ∉ addedEvents m ->
  exists message,
    run (eventSetDefaultMethod eventName method) m
    = mkOutcome [] m (inl (SnowStateError message)).
Proof.
  intros Hown Hadded.
  destruct (checkForIllegalKeys_throws m [eventName] eventName) as [message Hcheck];
    [ left; reflexivity | exact Hown | exact Hadded | ].
  exists message. unfold eventSetDefaultMethod, run in *.
  rewrite bind_eq, Hcheck. reflexivity.
Qed.

(** The methods of the class are not own properties of the instance. *)
Lemma class_method_not_own m key :
  lookupMember m key = ClassMethod -> hasOwnProperty m key = false.
Proof. unfold hasOwnProperty. intros ->. reflexivity. Qed.

(** C7: on a new machine, [add("idle", { change })] does not fail: the
    name of the public method [change] is not an own property of the
    instance, so [checkForIllegalKeys] lets it through; the state is
    registered with that event table and [this.change] stays the method
    of the class (no event is attached).  [eventSetDefaultMethod] accepts
    "trigger" in the same way.  A name of a field, such as
    "stateHistory", is refused and nothing is registered. *)
Theorem add_accepts_method_names :
  let m0 := createSnowState "idle" 0 in
  let table := [("change", Fn "idle.change")] in
  let r := run (add "idle" table) m0 in
  let d := run (eventSetDefaultMethod "trigger" (Fn "default.trigger")) m0 in
  lookupMember m0 "change" = ClassMethod
  /\ hasOwnProperty m0 "change" = false
  /\ result r = inr tt
  /\ stateObjects (final r) !! "idle" = Some table
  /\ lookupMember (final r) "change" = ClassMethod
  /\ result d = inr tt
  /\ defaultEventMethods (final d) !! "trigger" = Some (Fn "default.trigger")
  /\ run (add "idle" [("stateHistory", Fn "idle.stateHistory")]) m0
     = mkOutcome [] m0
         (inl (SnowStateError "Cannot use existing method/property name: stateHistory")).
Proof. by_evaluation. Qed.

(** ** Dispatch *)

(** With a registered current state the attached event function calls
    the function of the state, else the default, else nothing. *)
Lemma dispatch_registered m eventName currentState :
  stateObjects m !! state m = Some currentState ->
  run (dispatch eventName) m
  = mkOutcome
      (match getProp currentState eventName with
       | Some stateMethod => [Call stateMethod []]
       | None =>
           match defaultEventMethods m !! eventName with
           | Some method => [Call method []]
           | None => []
           end
       end) m (inr tt).
Proof.
  intros Hcur. unfold run, dispatch. rewrite bind_eq, this_eq.
  cbn [result trace final]. unfold lookupState. rewrite Hcur, preceded_nil.
  destruct (getProp currentState eventName); [ reflexivity | ].
  destruct (defaultEventMethods m !! eventName); reflexivity.
Qed.

Lemma dispatch_unregistered m eventName :
  hasState m (state m) = false ->
  run (dispatch eventName) m = mkOutcome [] m (inl TypeError).
Proof.
  intros Hcur. unfold run, dispatch. rewrite bind_eq, this_eq.
  cbn [result trace final]. rewrite preceded_nil.
  unfold hasState in Hcur. destruct (lookupState m (state m)); try discriminate.
  reflexivity.
Qed.

(** C9: a machine created in "idle" without registering it, with a
    default for the event "update": the event function [update] is
    attached to the instance, yet calling it throws a TypeError (the
    event table of the current state is [undefined]) and the default is
    not called; [eventExists], which tests the table first, answers
    DEFAULT on the same machine. *)
Theorem dispatch_fails_on_unregistered_state :
  lookupMember unregisteredDemo "update" = EventMethod
  /\ stateExists (getCurrentState unregisteredDemo) unregisteredDemo = false
  /\ defaultEventMethods unregisteredDemo !! "update" = Some (Fn "default.update")
  /\ run (dispatch "update") unregisteredDemo
     = mkOutcome [] unregisteredDemo (inl TypeError)
  /\ eventExists "update" unregisteredDemo = DEFAULT.
Proof. by_evaluation. Qed.

(** * Further properties *)

(** ** change: when it goes through and what it leaves behind *)

(** X1: a change that goes through makes the destination the current
    state, the state it left the previous state, and restarts the time
    of the state; it calls the leave-phase function before the
    enter-phase function and touches neither the registry of states and
    defaults, nor the transitions, nor the attached events, nor the
    history flag and cap. *)
Theorem change_postcondition m stateName leaveF enterF data now :
  result (run (change stateName leaveF enterF data now) m) = inr tt ->
  let r := run (change stateName leaveF enterF data now) m in
  getCurrentState (final r) = stateName
  /\ stateIs stateName None (final r) = true
  /\ getPreviousState (final r) = Some (getCurrentState m)
  /\ getTime now (final r) = 0
  /\ trace r = leaveCalls m leaveF data ++ enterCalls m stateName enterF data
  /\ stateObjects (final r) = stateObjects m
  /\ defaultEventMethods (final r) = defaultEventMethods m
  /\ stateTransitions (final r) = stateTransitions m
  /\ wildcardTransitions (final r) = wildcardTransitions m
  /\ addedEvents (final r) = addedEvents m
  /\ eventMethods (final r) = eventMethods m
  /\ historyIsEnabled (final r) = historyIsEnabled m
  /\ historyGetMaxSize (final r) = historyGetMaxSize m.
Proof.
  intros Hres r. subst r. rewrite change_succeeds by exact Hres.
  cbn [final trace].
  unfold getCurrentState, stateIs, getPreviousState, getTime, historyIsEnabled,
    historyGetMaxSize, committed, pushHistory.
  destruct (isHistoryEnabled m) eqn:Hen; [ destruct (_ >? _) | ]; simpl;
    rewrite ?Hen, String.eqb_refl, Z.sub_diag; tauto.
Qed.

Lemma change_postcondition_witness :
  getCurrentState (final (run (change "walk" None None VUndefined 2000) demo)) = "walk"
  /\ getPreviousState (final (run (change "walk" None None VUndefined 2000) demo))
     = Some "idle".
Proof.
  assert (Hres : result (run (change "walk" None None VUndefined 2000) demo) = inr tt)
    by (vm_compute; reflexivity).
  destruct (change_postcondition demo "walk" None None VUndefined 2000 Hres)
    as (Hcur & _ & Hprev & _).
  split; [ exact Hcur | ]. rewrite Hprev. vm_compute. reflexivity.
Defined.

(** X2: with state functions that return, a change goes through exactly
    when [stateExists] holds of the destination and the leave phase can
    run, that is, a leave override is given or [stateExists] holds of the
    current state.  A destination of which [stateExists] does not hold
    is refused with "State '...' does not exist" before any function is
    called, and the machine stays as it was.  With a destination that
    exists and no override, a current state of which [stateExists] does
    not hold gives a TypeError, again before any call and any update. *)
Theorem change_result m stateName leaveF enterF data now :
  let r := run (change stateName leaveF enterF data now) m in
  (result r = inr tt <->
     stateExists stateName m = true
     /\ (is_Some leaveF \/ stateExists (getCurrentState m) m = true))
  /\ (stateExists stateName m = false ->
      r = mkOutcome [] m
            (inl (SnowStateError ("State '" +:+ stateName +:+ "' does not exist"))))
  /\ (stateExists stateName m = true -> leaveF = None ->
      stateExists (getCurrentState m) m = false ->
      r = mkOutcome [] m (inl TypeError)).
Proof.
  intros r. subst r. unfold stateExists, getCurrentState.
  split; [ | split ].
  - split.
    + intros Hres.
      destruct (hasState m stateName) eqn:Hdest.
      * split; [ reflexivity | ].
        destruct leaveF as [lf | ]; [ left; eauto | ].
        destruct (hasState m (state m)) eqn:Hcur; [ right; reflexivity | ].
        rewrite change_from_unregistered in Hres by assumption. discriminate.
      * rewrite change_unregistered_dest in Hres by assumption. discriminate.
    + intros [Hdest Hleave]. rewrite change_goes_through by assumption. reflexivity.
  - intros Hdest. apply change_unregistered_dest. exact Hdest.
  - intros Hdest -> Hcur. apply change_from_unregistered; assumption.
Qed.

Lemma change_result_witness :
  stateExists "idle" (final (run (add "idle" []) (createSnowState "start" 0))) = true
  /\ stateExists "start" (final (run (add "idle" []) (createSnowState "start" 0))) = false
  /\ run (change "idle" None None VUndefined 5)
         (final (run (add "idle" []) (createSnowState "start" 0)))
     = mkOutcome [] (final (run (add "idle" []) (createSnowState "start" 0)))
         (inl TypeError).
Proof.
  assert (Hdest : stateExists "idle"
                    (final (run (add "idle" []) (createSnowState "start" 0))) = true)
    by (vm_compute; reflexivity).
  assert (Hcur : stateExists
                   (getCurrentState
                      (final (run (add "idle" []) (createSnowState "start" 0))))
                   (final (run (add "idle" []) (createSnowState "start" 0))) = false)
    by (vm_compute; reflexivity).
  split; [ exact Hdest | ]. split; [ exact Hcur | ].
  exact (proj2 (proj2 (change_result
                         (final (run (add "idle" []) (createSnowState "start" 0)))
                         "idle" None None VUndefined 5))
           Hdest eq_refl Hcur).
Defined.

Lemma committed_set_defaultEventMethods d m stateName now :
  committed (set_defaultEventMethods d m) stateName now
  = set_defaultEventMethods d (committed m stateName now).
Proof.
  unfold committed, pushHistory. simpl.
  destruct (isHistoryEnabled m); [ destruct (_ >? _) | ]; reflexivity.
Qed.

(** X3: [change] never looks at the default event methods: whatever
    defaults are registered (also for "enter" and "leave"), it calls the
    same functions, ends the same way and leaves the same machine. *)
Theorem change_ignores_defaults m d stateName leaveF enterF data now :
  let r := run (change stateName leaveF enterF data now) m in
  let r' := run (change stateName leaveF enterF data now) (set_defaultEventMethods d m) in
  trace r' = trace r
  /\ result r' = result r
  /\ final r' = set_defaultEventMethods d (final r).
Proof.
  intros r r'. subst r r'.
  assert (Hsame : forall s, hasState (set_defaultEventMethods d m) s = hasState m s)
    by reflexivity.
  destruct (hasState m stateName) eqn:Hdest.
  - destruct leaveF as [lf | ].
    + rewrite !change_goes_through by (rewrite ?Hsame; eauto).
      cbn [trace result final]. rewrite committed_set_defaultEventMethods. tauto.
    + destruct (hasState m (state m)) eqn:Hcur.
      * rewrite !change_goes_through by (rewrite ?Hsame; eauto).
        cbn [trace result final]. rewrite committed_set_defaultEventMethods. tauto.
      * rewrite !change_from_unregistered by (rewrite ?Hsame; assumption).
        cbn [trace result final]. tauto.
  - rewrite !change_unregistered_dest by (rewrite ?Hsame; assumption).
    cbn [trace result final]. tauto.
Qed.

(** ** History along a sequence of changes *)

Lemma lastN_short {A} (cap : Z) (l : list A) :
  Z.of_nat (length l) <= cap -> lastN cap l = l.
Proof.
  intros Hle. unfold lastN.
  replace (length l - Z.to_nat cap)%nat with 0%nat by lia. apply drop_0.
Qed.

Lemma lastN_length {A} (cap : Z) (l : list A) :
  0 <= cap -> Z.of_nat (length (lastN cap l)) <= cap.
Proof. intros Hcap. unfold lastN. rewrite length_drop. lia. Qed.

Lemma lastN_app_lastN {A} (cap : Z) (a b : list A) :
  lastN cap (lastN cap a ++ b) = lastN cap (a ++ b).
Proof.
  unfold lastN. rewrite !length_app, length_drop.
  destruct (Nat.le_gt_cases (length a) (Z.to_nat cap)) as [Hle | Hgt].
  - replace (length a - Z.to_nat cap)%nat with 0%nat by lia.
    rewrite drop_0, Nat.sub_0_r. reflexivity.
  - replace (length a - (length a - Z.to_nat cap) + length b - Z.to_nat cap)%nat
      with (length b) by lia.
    replace (length a + length b - Z.to_nat cap)%nat
      with ((length a - Z.to_nat cap) + length b)%nat by lia.
    rewrite <- drop_drop. f_equal.
    rewrite drop_app_le by lia. reflexivity.
Qed.

Lemma stateHistory_committed_enabled m stateName now :
  isHistoryEnabled m = true -> historyBounded m ->
  stateHistory (committed m stateName now)
  = lastN (maxHistorySize m) (stateHistory m ++ [state m]).
Proof.
  intros Hen [Hmax Hlen]. unfold committed. cbn [stateHistory set_stateStartTime set_state].
  rewrite pushHistory_enabled by exact Hen. cbn [stateHistory set_previousState state maxHistorySize].
  unfold lastN. rewrite length_app. simpl length.
  destruct (Z.of_nat (length (stateHistory m) + 1) >? maxHistorySize m) eqn:Hgt.
  - rewrite Z.gtb_ltb in Hgt. apply Z.ltb_lt in Hgt.
    replace (length (stateHistory m) + 1 - Z.to_nat (maxHistorySize m))%nat with 1%nat by lia.
    unfold shift. destruct (stateHistory m ++ [state m]); reflexivity.
  - rewrite Z.gtb_ltb in Hgt. apply Z.ltb_ge in Hgt.
    replace (length (stateHistory m) + 1 - Z.to_nat (maxHistorySize m))%nat with 0%nat by lia.
    reflexivity.
Qed.

Lemma stateHistory_committed_disabled m stateName now :
  isHistoryEnabled m = false ->
  stateHistory (committed m stateName now) = stateHistory m.
Proof.
  intros Hen. unfold committed, pushHistory. simpl. rewrite Hen. reflexivity.
Qed.

Lemma committed_frame m stateName now :
  state (committed m stateName now) = stateName
  /\ stateObjects (committed m stateName now) = stateObjects m
  /\ isHistoryEnabled (committed m stateName now) = isHistoryEnabled m
  /\ maxHistorySize (committed m stateName now) = maxHistorySize m.
Proof.
  unfold committed, pushHistory.
  destruct (isHistoryEnabled m) eqn:Hen; [ destruct (_ >? _) | ]; simpl;
    rewrite ?Hen; tauto.
Qed.

Lemma last_default_irrelevant {A} (l : list A) : forall x d d',
  List.last (x :: l) d = List.last (x :: l) d'.
Proof.
  induction l as [ | y l IH ]; intros x d d'; [ reflexivity | ].
  change (List.last (y :: l) d = List.last (y :: l) d'). apply IH.
Qed.

Lemma statesLeft_cons current stateName rest :
  statesLeft current (stateName :: rest) = current :: statesLeft stateName rest.
Proof. reflexivity. Qed.

(** X5: a sequence of changes through registered states, started in a
    registered state, goes through and ends in the last state of the
    path.  With history enabled the buffer then holds the most recent
    entries, up to the cap, of the old buffer followed by the states left
    in order (the starting state first, the final state not included);
    with history disabled the buffer is as before. *)
Theorem history_along_path path : forall m data now,
  is_Some (stateObjects m !! state m) ->
  Forall (fun stateName => is_Some (stateObjects m !! stateName)) path ->
  let r := run (changeAll path data now) m in
  result r = inr tt
  /\ getCurrentState (final r) = List.last path (getCurrentState m)
  /\ (historyIsEnabled m = true -> historyBounded m ->
      historyGet (final r)
      = lastN (historyGetMaxSize m)
              (historyGet m ++ statesLeft (getCurrentState m) path))
  /\ (historyIsEnabled m = false -> historyGet (final r) = historyGet m).
Proof.
  unfold getCurrentState, historyIsEnabled, historyGet, historyGetMaxSize.
  cbv zeta.
  induction path as [ | stateName rest IH ]; intros m data now Hcur Hpath.
  - simpl. split; [ reflexivity | ]. split; [ reflexivity | ].
    split; [ | reflexivity ].
    intros _ [_ Hlen]. unfold statesLeft. simpl. rewrite app_nil_r.
    symmetry. apply lastN_short. exact Hlen.
  - inversion Hpath as [ | x l Hs Hrest ]; subst.
    cbn [changeAll]. unfold run. rewrite bind_eq.
    fold (run (change stateName None None data now) m).
    rewrite change_ok by eauto. cbn [result trace final].
    destruct (committed_frame m stateName now) as (Hst & Hobj & Hen & Hmax).
    specialize (IH (committed m stateName now) data now).
    rewrite Hst, Hobj, Hen, Hmax in IH.
    destruct IH as (IHres & IHcur & IHon & IHoff); [ exact Hs | exact Hrest | ].
    unfold run in *. unfold preceded. cbn [result trace final].
    split; [ exact IHres | ].
    split.
    { rewrite IHcur. destruct rest as [ | s rest' ]; [ reflexivity | ].
      change (List.last (s :: rest') stateName = List.last (s :: rest') (state m)).
      apply last_default_irrelevant. }
    split.
    + intros Hon Hb. rewrite IHon.
      * rewrite stateHistory_committed_enabled by assumption.
        rewrite lastN_app_lastN, <- app_assoc. reflexivity.
      * exact Hon.
      * destruct Hb as [Hb1 Hb2]. split; [ rewrite Hmax; exact Hb1 | ].
        rewrite Hmax, stateHistory_committed_enabled by (try split; assumption).
        apply lastN_length. lia.
    + intros Hoff. rewrite IHoff by exact Hoff.
      apply stateHistory_committed_disabled. exact Hoff.
Qed.

Lemma history_along_path_witness :
  historyGet (final (run (changeAll ["B"; "C"; "D"; "A"; "B"] VUndefined 9) abcd))
  = lastN 2 ([] ++ statesLeft "A" ["B"; "C"; "D"; "A"; "B"]).
Proof.
  destruct (history_along_path ["B"; "C"; "D"; "A"; "B"] abcd VUndefined 9)
    as (_ & _ & Hon & _).
  - vm_compute. eauto.
  - repeat (constructor; [ vm_compute; eauto | ]). constructor.
  - apply Hon; [ vm_compute; reflexivity | ].
    split; vm_compute; discriminate.
Defined.

(** ** The cap of the history *)

(** X6: two calls of [historySetMaxSize] in a row leave the cap of the
    second call and the most recent entries up to the smaller of the two
    sizes: entries dropped by a small cap do not come back when the cap
    is raised. *)
Theorem historySetMaxSize_twice m a b :
  1 <= a -> 1 <= b ->
  let r := run (historySetMaxSize a ;;; historySetMaxSize b) m in
  result r = inr tt
  /\ historyGetMaxSize (final r) = b
  /\ historyGet (final r) = lastN (Z.min a b) (historyGet m).
Proof.
  intros Ha Hb r. subst r. unfold run. rewrite bind_eq.
  fold (run (historySetMaxSize a) m). rewrite historySetMaxSize_ok by exact Ha.
  cbn [result trace final]. unfold preceded.
  fold (run (historySetMaxSize b)
            (set_stateHistory
               (drop (length (stateHistory m) - Z.to_nat a) (stateHistory m))
               (set_maxHistorySize a m))).
  rewrite historySetMaxSize_ok by exact Hb.
  cbn [result trace final]. unfold historyGetMaxSize, historyGet, lastN. simpl.
  split; [ reflexivity | ]. split; [ reflexivity | ].
  rewrite length_drop, drop_drop. f_equal. lia.
Qed.

Lemma historySetMaxSize_twice_witness :
  historyGet (final (run (historySetMaxSize 1 ;;; historySetMaxSize 5)
                         (set_stateHistory ["a"; "b"; "c"] abcd)))
  = lastN (Z.min 1 5) ["a"; "b"; "c"].
Proof.
  destruct (historySetMaxSize_twice (set_stateHistory ["a"; "b"; "c"] abcd) 1 5)
    as (_ & _ & Hget); [ lia | lia | ].
  exact Hget.
Defined.

(** ** Registration of states and events *)

Lemma checkForIllegalKeys_run m eventNames :
  run (checkForIllegalKeys eventNames) m
  = match illegalKeys m eventNames with
    | [] => mkOutcome [] m (inr tt)
    | _ :: _ =>
        mkOutcome [] m
          (inl (SnowStateError
                  ("Cannot use existing method/property name: "
                   +:+ join ", " (illegalKeys m eventNames))))
    end.
Proof.
  unfold run, checkForIllegalKeys. rewrite bind_eq, this_eq. cbn [result trace final].
  rewrite preceded_nil. fold (illegalKeys m eventNames).
  destruct (illegalKeys m eventNames); reflexivity.
Qed.

Lemma illegalKeys_nil m eventNames :
  illegalKeys m eventNames = [] <->
  forall key, In key eventNames -> hasOwnProperty m key = true -> key ∈ addedEvents m.
Proof.
  unfold illegalKeys. split.
  - intros Hnil key Hin Hown.
    destruct (decide (key ∈ addedEvents m)) as [Hadded | Hnot]; [ exact Hadded | ].
    assert (Hk : In key (List.filter
                           (fun key => hasOwnProperty m key
                                       && negb (bool_decide (key ∈ addedEvents m)))
                           eventNames)).
    { apply filter_In. split; [ exact Hin | ].
      rewrite Hown. simpl. apply negb_true_iff, bool_decide_eq_false. exact Hnot. }
    rewrite Hnil in Hk. destruct Hk.
  - intros Hall.
    destruct (List.filter _ eventNames) as [ | k rest ] eqn:Hf; [ reflexivity | ].
    assert (Hk : In k (k :: rest)) by (left; reflexivity).
    rewrite <- Hf in Hk. apply filter_In in Hk as [Hin Hcond].
    apply andb_true_iff in Hcond as [Hown Hnot].
    apply negb_true_iff, bool_decide_eq_false in Hnot.
    contradiction Hnot. apply Hall; assumption.
Qed.

Lemma addMethodToStateMachine_run m eventName :
  run (addMethodToStateMachine eventName) m = mkOutcome [] (attach eventName m) (inr tt).
Proof.
  unfold run, addMethodToStateMachine, attach. rewrite bind_eq, this_eq.
  cbn [result trace final]. rewrite preceded_nil.
  destruct (truthyMember m eventName); reflexivity.
Qed.

Lemma attach_idle m eventName :
  truthyMember m eventName = true -> attach eventName m = m.
Proof. unfold attach. intros ->. reflexivity. Qed.

Lemma forEach_attach eventNames : forall m,
  run (forEach eventNames (fun eventName =>
         m <- this ;;
         if negb (truthyMember m eventName)
         then addMethodToStateMachine eventName
         else ret tt)) m
  = mkOutcome [] (attachAll eventNames m) (inr tt).
Proof.
  induction eventNames as [ | k rest IH ]; intros m; [ reflexivity | ].
  cbn [forEach attachAll fold_left]. unfold run in *. rewrite bind_eq.
  rewrite bind_eq, this_eq. cbn [result trace final]. rewrite preceded_nil.
  destruct (truthyMember m k) eqn:Hk; cbn [negb].
  - unfold ret at 1. cbn [result trace final]. rewrite preceded_nil, IH.
    rewrite attach_idle by exact Hk. reflexivity.
  - pose proof (addMethodToStateMachine_run m k) as Hrun. unfold run in Hrun.
    rewrite Hrun. cbn [result trace final]. rewrite preceded_nil, IH. reflexivity.
Qed.

(** [add] as a function of the machine. *)
Lemma add_run m stateName stateObject :
  run (add stateName stateObject) m
  = match illegalKeys m (keys stateObject) with
    | [] =>
        mkOutcome []
          (attachAll (keys stateObject)
             (set_stateObjects (<[stateName := stateObject]> (stateObjects m)) m))
          (inr tt)
    | _ :: _ =>
        mkOutcome [] m
          (inl (SnowStateError
                  ("Cannot use existing method/property name: "
                   +:+ join ", " (illegalKeys m (keys stateObject)))))
    end.
Proof.
  unfold add, run. rewrite bind_eq.
  pose proof (checkForIllegalKeys_run m (keys stateObject)) as Hcheck.
  unfold run in Hcheck. rewrite Hcheck.
  destruct (illegalKeys m (keys stateObject)); cbn [result trace final]; [ | reflexivity ].
  rewrite preceded_nil, bind_eq. unfold update at 1. cbn [result trace final].
  rewrite preceded_nil.
  pose proof (forEach_attach (keys stateObject)) as Hfor. unfold run in Hfor.
  apply Hfor.
Qed.

Lemma eventSetDefaultMethod_run m eventName method :
  run (eventSetDefaultMethod eventName method) m
  = match illegalKeys m [eventName] with
    | [] =>
        mkOutcome []
          (attach eventName
             (set_defaultEventMethods
                (<[eventName := method]> (defaultEventMethods m)) m))
          (inr tt)
    | _ :: _ =>
        mkOutcome [] m
          (inl (SnowStateError
                  ("Cannot use existing method/property name: "
                   +:+ join ", " (illegalKeys m [eventName]))))
    end.
Proof.
  unfold eventSetDefaultMethod, run. rewrite bind_eq.
  pose proof (checkForIllegalKeys_run m [eventName]) as Hcheck.
  unfold run in Hcheck. rewrite Hcheck.
  destruct (illegalKeys m [eventName]); cbn [result trace final]; [ | reflexivity ].
  rewrite preceded_nil, bind_eq. unfold update at 1. cbn [result trace final].
  rewrite preceded_nil.
  pose proof (addMethodToStateMachine_run
                (set_defaultEventMethods (<[eventName := method]> (defaultEventMethods m)) m)
                eventName) as Hrun.
  unfold run in Hrun. apply Hrun.
Qed.

Lemma sameButEvents_refl m : sameButEvents m m.
Proof. unfold sameButEvents. tauto. Qed.

Lemma sameButEvents_trans m1 m2 m3 :
  sameButEvents m1 m2 -> sameButEvents m2 m3 -> sameButEvents m1 m3.
Proof.
  unfold sameButEvents.
  intros (?&?&?&?&?&?&?&?&?&?) (?&?&?&?&?&?&?&?&?&?).
  repeat split; congruence.
Qed.

Lemma sameButEvents_attach m eventName : sameButEvents m (attach eventName m).
Proof.
  unfold attach. destruct (truthyMember m eventName);
    unfold sameButEvents; simpl; tauto.
Qed.

Lemma sameButEvents_attachAll eventNames : forall m,
  sameButEvents m (attachAll eventNames m).
Proof.
  induction eventNames as [ | k rest IH ]; intros m; [ apply sameButEvents_refl | ].
  cbn [attachAll fold_left].
  eapply sameButEvents_trans; [ apply sameButEvents_attach | apply IH ].
Qed.

Lemma eventMethods_attach m eventName :
  eventMethods m ⊆ eventMethods (attach eventName m)
  /\ addedEvents m ⊆ addedEvents (attach eventName m).
Proof.
  unfold attach. destruct (truthyMember m eventName); simpl; set_solver.
Qed.

Lemma eventMethods_attachAll eventNames : forall m,
  eventMethods m ⊆ eventMethods (attachAll eventNames m)
  /\ addedEvents m ⊆ addedEvents (attachAll eventNames m).
Proof.
  induction eventNames as [ | k rest IH ]; intros m; [ split; reflexivity | ].
  cbn [attachAll fold_left].
  destruct (eventMethods_attach m k) as [H1 H2].
  destruct (IH (attach k m)) as [H3 H4]. split; set_solver.
Qed.

(** A name that was truthy stays truthy when events are attached, and an
    attached name is truthy. *)
Lemma lookupMember_attach m eventName key :
  lookupMember (attach eventName m) key
  = if truthyMember m eventName then lookupMember m key
    else if String.eqb key eventName then EventMethod
    else lookupMember m key.
Proof.
  unfold attach. destruct (truthyMember m eventName) eqn:Ht; [ reflexivity | ].
  unfold lookupMember. simpl.
  destruct (String.eqb key eventName) eqn:Heq.
  - apply String.eqb_eq in Heq. subst key.
    rewrite bool_decide_eq_true_2 by set_solver. reflexivity.
  - apply String.eqb_neq in Heq.
    destruct (decide (key ∈ eventMethods m)) as [Hin | Hnot].
    + rewrite !bool_decide_eq_true_2 by set_solver. reflexivity.
    + rewrite !bool_decide_eq_false_2 by set_solver. reflexivity.
Qed.

Lemma fieldTruthy_attach m eventName key :
  fieldTruthy (attach eventName m) key = fieldTruthy m key.
Proof.
  unfold attach. destruct (truthyMember m eventName); reflexivity.
Qed.

Lemma truthyMember_attach_mono m eventName key :
  truthyMember m key = true -> truthyMember (attach eventName m) key = true.
Proof.
  unfold truthyMember. rewrite lookupMember_attach, fieldTruthy_attach.
  destruct (truthyMember m eventName); [ tauto | ].
  destruct (String.eqb key eventName); tauto.
Qed.

Lemma truthyMember_attach_self m eventName :
  truthyMember (attach eventName m) eventName = true.
Proof.
  destruct (truthyMember m eventName) eqn:Ht.
  - rewrite attach_idle by exact Ht. exact Ht.
  - unfold truthyMember. rewrite lookupMember_attach, Ht, String.eqb_refl. reflexivity.
Qed.

Lemma truthyMember_attachAll_mono eventNames : forall m key,
  truthyMember m key = true -> truthyMember (attachAll eventNames m) key = true.
Proof.
  induction eventNames as [ | k rest IH ]; intros m key Ht; [ exact Ht | ].
  cbn [attachAll fold_left]. apply IH, truthyMember_attach_mono, Ht.
Qed.

Lemma truthyMember_attachAll eventNames : forall m key,
  In key eventNames -> truthyMember (attachAll eventNames m) key = true.
Proof.
  induction eventNames as [ | k rest IH ]; intros m key Hin; [ destruct Hin | ].
  cbn [attachAll fold_left]. destruct Hin as [-> | Hin].
  - apply truthyMember_attachAll_mono, truthyMember_attach_self.
  - apply IH, Hin.
Qed.

Lemma attachAll_idle eventNames : forall m,
  (forall key, In key eventNames -> truthyMember m key = true) ->
  attachAll eventNames m = m.
Proof.
  induction eventNames as [ | k rest IH ]; intros m Hall; [ reflexivity | ].
  cbn [attachAll fold_left]. rewrite attach_idle by (apply Hall; left; reflexivity).
  apply IH. intros key Hin. apply Hall. right. exact Hin.
Qed.

Lemma lookupMember_attachAll_EventMethod eventNames : forall m key,
  lookupMember m key = EventMethod ->
  lookupMember (attachAll eventNames m) key = EventMethod.
Proof.
  induction eventNames as [ | k rest IH ]; intros m key Hk; [ exact Hk | ].
  cbn [attachAll fold_left]. apply IH. rewrite lookupMember_attach, Hk.
  destruct (truthyMember m k); [ reflexivity | ].
  destruct (String.eqb key k); reflexivity.
Qed.

Lemma lookupMember_attachAll_NoMember eventNames : forall m key,
  In key eventNames -> lookupMember m key = NoMember ->
  lookupMember (attachAll eventNames m) key = EventMethod.
Proof.
  induction eventNames as [ | k rest IH ]; intros m key Hin Hk; [ destruct Hin | ].
  cbn [attachAll fold_left].
  destruct (String.eqb key k) eqn:Heq.
  - apply String.eqb_eq in Heq. subst k.
    apply lookupMember_attachAll_EventMethod.
    rewrite lookupMember_attach. unfold truthyMember. rewrite Hk, String.eqb_refl.
    reflexivity.
  - destruct Hin as [-> | Hin]; [ rewrite String.eqb_refl in Heq; discriminate | ].
    apply IH; [ exact Hin | ].
    rewrite lookupMember_attach, Heq, Hk. destruct (truthyMember m k); reflexivity.
Qed.

(** X7: [add] fails exactly when one of the keys of the event table is
    an own property of the instance that is not an added event; it then
    registers nothing.  Otherwise it stores the table under the name
    (replacing an earlier one), keeps the other states, calls no
    function, and changes nothing but the registry and the attached
    events, which only grow. *)
Theorem add_outcome m stateName stateObject :
  let r := run (add stateName stateObject) m in
  (result r = inr tt <->
     forall key, In key (keys stateObject) ->
                 hasOwnProperty m key = true -> key ∈ addedEvents m)
  /\ (result r <> inr tt -> final r = m)
  /\ trace r = []
  /\ (result r = inr tt ->
      stateObjects (final r) = <[stateName := stateObject]> (stateObjects m)
      /\ stateExists stateName (final r) = true
      /\ (forall other, other <> stateName ->
                        stateObjects (final r) !! other = stateObjects m !! other)
      /\ getCurrentState (final r) = getCurrentState m
      /\ getPreviousState (final r) = getPreviousState m
      /\ historyGet (final r) = historyGet m
      /\ defaultEventMethods (final r) = defaultEventMethods m
      /\ stateTransitions (final r) = stateTransitions m
      /\ wildcardTransitions (final r) = wildcardTransitions m
      /\ eventMethods m ⊆ eventMethods (final r)).
Proof.
  intros r. subst r. rewrite add_run.
  destruct (illegalKeys m (keys stateObject)) as [ | k rest ] eqn:Hill.
  - cbn [result final trace].
    split; [ split; [ intros _; apply illegalKeys_nil; exact Hill | reflexivity ] | ].
    split; [ intros Hne; contradiction Hne; reflexivity | ].
    split; [ reflexivity | ]. intros _.
    set (m1 := set_stateObjects (<[stateName := stateObject]> (stateObjects m)) m).
    destruct (sameButEvents_attachAll (keys stateObject) m1)
      as (Hst & Hdef & Hobj & Hprev & Hhist & _ & _ & _ & Htr & Hwild).
    destruct (eventMethods_attachAll (keys stateObject) m1) as [Hev _].
    unfold stateExists, getCurrentState, getPreviousState, historyGet.
    rewrite Hst, Hdef, Hobj, Hprev, Hhist, Htr, Hwild. subst m1. simpl.
    split; [ reflexivity | ].
    split; [ apply hasState_true; simpl; rewrite Hobj; simpl;
             rewrite lookup_insert_eq; eauto | ].
    split; [ intros other Hne; apply lookup_insert_ne; congruence | ].
    repeat (split; [ reflexivity | ]). exact Hev.
  - cbn [result final trace].
    split.
    + split; [ discriminate | ].
      intros Hall. apply illegalKeys_nil in Hall. congruence.
    + split; [ reflexivity | ]. split; [ reflexivity | discriminate ].
Qed.

Lemma add_outcome_witness :
  stateExists "run" (final (run (add "run" [("update", Fn "run.update")]) demo)) = true.
Proof.
  destruct (add_outcome demo "run" [("update", Fn "run.update")])
    as ((_ & Hok) & _ & _ & Hpost).
  assert (Hres : result (run (add "run" [("update", Fn "run.update")]) demo) = inr tt).
  { apply Hok. intros key [<- | []]. vm_compute. discriminate. }
  destruct (Hpost Hres) as (_ & Hex & _). exact Hex.
Defined.

(** X8: after [add] went through, every key of the table is a member of
    the instance that can be called; a key that was no member before is
    now an attached event, and when the added state is the current
    state, the attached event calls the function the table gives for
    that key, without arguments, and changes nothing. *)
Theorem add_then_dispatch m stateName stateObject key f :
  result (run (add stateName stateObject) m) = inr tt ->
  In key (keys stateObject) ->
  getProp stateObject key = Some f ->
  let m' := final (run (add stateName stateObject) m) in
  truthyMember m' key = true
  /\ (lookupMember m key = NoMember -> lookupMember m' key = EventMethod)
  /\ (getCurrentState m = stateName ->
      run (dispatch key) m' = mkOutcome [Call f []] m' (inr tt)).
Proof.
  intros Hres Hin Hf m'. subst m'. revert Hres. rewrite add_run.
  destruct (illegalKeys m (keys stateObject)); cbn [result final]; [ | discriminate ].
  intros _.
  set (m1 := set_stateObjects (<[stateName := stateObject]> (stateObjects m)) m).
  split; [ apply truthyMember_attachAll; exact Hin | ].
  split; [ intros Hno; apply lookupMember_attachAll_NoMember; [ exact Hin | exact Hno ] | ].
  unfold getCurrentState. intros Hcur.
  destruct (sameButEvents_attachAll (keys stateObject) m1) as (Hst & _ & Hobj & _).
  rewrite (dispatch_registered _ key stateObject).
  - rewrite Hf. reflexivity.
  - rewrite Hobj, Hst. subst m1. simpl. rewrite Hcur. apply lookup_insert_eq.
Qed.

Lemma add_then_dispatch_witness :
  run (dispatch "update")
      (final (run (add "idle" [("update", Fn "idle.update")]) demo))
  = mkOutcome [Call (Fn "idle.update") []]
      (final (run (add "idle" [("update", Fn "idle.update")]) demo)) (inr tt).
Proof.
  apply (add_then_dispatch demo "idle" [("update", Fn "idle.update")] "update"
           (Fn "idle.update")).
  - vm_compute. reflexivity.
  - left. reflexivity.
  - reflexivity.
  - vm_compute. reflexivity.
Defined.

(** X9: registering the same state with the same table a second time
    goes through as well and changes nothing more: the events attached
    by the first call are own properties, but they are recorded as added
    events and so pass the check.  (The attached events of the machine
    are taken to be among its added events, as they are on every machine
    built by the class.) *)
Theorem add_twice m stateName stateObject :
  eventMethods m ⊆ addedEvents m ->
  result (run (add stateName stateObject) m) = inr tt ->
  let m' := final (run (add stateName stateObject) m) in
  run (add stateName stateObject) m' = mkOutcome [] m' (inr tt).
Proof.
  intros Hsub Hres m'.
  assert (Hm' : m' = attachAll (keys stateObject)
                       (set_stateObjects (<[stateName := stateObject]> (stateObjects m)) m)
                /\ illegalKeys m (keys stateObject) = []).
  { subst m'. revert Hres. rewrite add_run.
    destruct (illegalKeys m (keys stateObject)); cbn [result final];
      [ tauto | discriminate ]. }
  destruct Hm' as [Hm' Hill]. clearbody m'.
  set (m1 := set_stateObjects (<[stateName := stateObject]> (stateObjects m)) m) in *.
  destruct (sameButEvents_attachAll (keys stateObject) m1) as (_ & _ & Hobj & _).
  destruct (eventMethods_attachAll (keys stateObject) m1) as [Hev Hadd].
  rewrite <- Hm' in Hobj, Hev, Hadd.
  assert (Hill' : illegalKeys m' (keys stateObject) = []).
  { apply illegalKeys_nil. intros key Hin Hown.
    unfold hasOwnProperty in Hown.
    destruct (lookupMember m' key) eqn:Hlook; try discriminate.
    - unfold lookupMember in Hlook.
      destruct (bool_decide (key ∈ eventMethods m')) eqn:Hdec.
      + apply bool_decide_eq_true in Hdec.
        destruct (decide (key ∈ eventMethods m)) as [Hold | Hnew];
          [ apply Hadd; simpl; apply Hsub; exact Hold | ].
        (* attached by the first call *)
        clear Hlook.
        assert (Hgen : forall names mm,
                   key ∉ eventMethods mm -> key ∈ eventMethods (attachAll names mm) ->
                   key ∈ addedEvents (attachAll names mm)).
        { induction names as [ | k rest IH ]; intros mm Hout Hin'; [ contradiction | ].
          cbn [attachAll fold_left] in *.
          destruct (decide (key ∈ eventMethods (attach k mm))) as [Hk | Hk].
          - destruct (eventMethods_attachAll rest (attach k mm)) as [_ Hadd'].
            apply Hadd'. unfold attach in *.
            destruct (truthyMember mm k); [ contradiction | ]. simpl in *. set_solver.
          - apply IH; assumption. }
        rewrite Hm'. apply Hgen; [ exact Hnew | rewrite <- Hm'; exact Hdec ].
      + destruct (inList key instanceFields); [ discriminate | ].
        destruct (inList key classMethods); [ discriminate | ].
        destruct (inList key objectPrototypeMembers); discriminate.
    - (* a field: it was a field for the first call too *)
      assert (Hown0 : hasOwnProperty m key = true).
      { unfold hasOwnProperty, lookupMember in *.
        destruct (bool_decide (key ∈ eventMethods m')) eqn:Hdec; [ discriminate | ].
        apply bool_decide_eq_false in Hdec.
        rewrite bool_decide_eq_false_2 by (intros Hc; apply Hdec, Hev; exact Hc).
        destruct (inList key instanceFields); [ reflexivity | ].
        destruct (inList key classMethods); [ discriminate | ].
        destruct (inList key objectPrototypeMembers); discriminate. }
      apply Hadd. simpl.
      apply (proj1 (illegalKeys_nil m (keys stateObject)) Hill key Hin Hown0). }
  rewrite add_run, Hill'. f_equal.
  assert (Hsame : set_stateObjects (<[stateName := stateObject]> (stateObjects m')) m' = m').
  { assert (Hobj' : stateObjects m' = <[stateName := stateObject]> (stateObjects m))
      by exact Hobj.
    rewrite Hobj', insert_insert_eq, <- Hobj'. destruct m'; reflexivity. }
  rewrite Hsame. apply attachAll_idle.
  intros key Hin. rewrite Hm'. apply truthyMember_attachAll. exact Hin.
Qed.

Lemma add_twice_witness :
  let m' := final (run (add "run" [("update", Fn "run.update")]) demo) in
  run (add "run" [("update", Fn "run.update")]) m' = mkOutcome [] m' (inr tt).
Proof.
  apply (add_twice demo "run" [("update", Fn "run.update")]).
  - refine (bool_decide_unpack _ _). vm_compute. exact I.
  - vm_compute. reflexivity.
Defined.

(** ** Events *)




(** X11: [eventSetDefaultMethod] fails exactly when the name is an own
    property of the instance that is not an added event, and then
    changes nothing.  Otherwise it records the default (replacing an
    earlier one), the name is a member of the instance afterwards,
    [eventExists] no longer answers NOT_DEFINED for it, and in a
    registered current state without a function of that name the
    attached event calls the default. *)
Theorem eventSetDefaultMethod_outcome m eventName method :
  let r := run (eventSetDefaultMethod eventName method) m in
  (result r = inr tt <-> (hasOwnProperty m eventName = true -> eventName ∈ addedEvents m))
  /\ (result r <> inr tt -> final r = m)
  /\ trace r = []
  /\ (result r = inr tt ->
      defaultEventMethods (final r) = <[eventName := method]> (defaultEventMethods m)
      /\ stateObjects (final r) = stateObjects m
      /\ getCurrentState (final r) = getCurrentState m
      /\ truthyMember (final r) eventName = true
      /\ eventExists eventName (final r) <> NOT_DEFINED
      /\ (forall currentState,
            stateObjects m !! state m = Some currentState ->
            getProp currentState eventName = None ->
            run (dispatch eventName) (final r)
            = mkOutcome [Call method []] (final r) (inr tt))).
Proof.
  intros r. subst r. rewrite eventSetDefaultMethod_run.
  destruct (illegalKeys m [eventName]) as [ | k rest ] eqn:Hill.
  - cbn [result final trace].
    split.
    { split; [ | reflexivity ]. intros _ Hown.
      apply (proj1 (illegalKeys_nil m [eventName]) Hill); [ left; reflexivity | exact Hown ]. }
    split; [ intros Hne; contradiction Hne; reflexivity | ].
    split; [ reflexivity | ]. intros _.
    set (m1 := set_defaultEventMethods (<[eventName := method]> (defaultEventMethods m)) m).
    destruct (sameButEvents_attach m1 eventName) as (Hst & Hdef & Hobj & _).
    unfold getCurrentState. rewrite Hst, Hdef, Hobj. subst m1. simpl.
    split; [ reflexivity | ]. split; [ reflexivity | ]. split; [ reflexivity | ].
    split; [ apply truthyMember_attach_self | ].
    split.
    + unfold eventExists, hasDefault. rewrite Hdef. simpl.
      rewrite lookup_insert_eq.
      destruct (hasFunction _ eventName); discriminate.
    + intros currentState Hcur Hnone.
      rewrite (dispatch_registered _ eventName currentState)
        by (rewrite Hst, Hobj; exact Hcur).
      rewrite Hnone, Hdef. simpl. rewrite lookup_insert_eq. reflexivity.
  - cbn [result final trace].
    split.
    + split; [ discriminate | ].
      intros Hall.
      assert (Hnil : illegalKeys m [eventName] = []).
      { apply illegalKeys_nil. intros key [<- | []]. exact Hall. }
      congruence.
    + split; [ reflexivity | ]. split; [ reflexivity | discriminate ].
Qed.

Lemma eventSetDefaultMethod_outcome_witness :
  run (dispatch "draw")
      (final (run (eventSetDefaultMethod "draw" (Fn "default.draw")) demo))
  = mkOutcome [Call (Fn "default.draw") []]
      (final (run (eventSetDefaultMethod "draw" (Fn "default.draw")) demo)) (inr tt).
Proof.
  destruct (eventSetDefaultMethod_outcome demo "draw" (Fn "default.draw"))
    as (_ & _ & _ & Hpost).
  destruct Hpost as (_ & _ & _ & _ & _ & Hdisp); [ vm_compute; reflexivity | ].
  apply (Hdisp [("enter", idleEnter); ("leave", idleLeave)]).
  - vm_compute. reflexivity.
  - reflexivity.
Defined.

(** ** Registration of transitions *)

Lemma forEach_check sources dest : forall m,
  run (forEach sources (fun source =>
         m <- this ;;
         if negb (hasState m source) then
           throw (SnowStateError ("Source state '" +:+ source +:+ "' does not exist"))
         else if negb (hasState m dest) then
           throw (SnowStateError ("Destination state '" +:+ dest +:+ "' does not exist"))
         else ret tt)) m
  = match checkSources m sources dest with
    | Some message => mkOutcome [] m (inl (SnowStateError message))
    | None => mkOutcome [] m (inr tt)
    end.
Proof.
  induction sources as [ | s rest IH ]; intros m; [ reflexivity | ].
  cbn [forEach checkSources]. unfold run in *. rewrite bind_eq.
  rewrite bind_eq, this_eq. cbn [result trace final]. rewrite preceded_nil.
  destruct (hasState m s); cbn [negb]; [ | reflexivity ].
  destruct (hasState m dest); cbn [negb]; [ | reflexivity ].
  unfold ret at 1. cbn [result trace final]. rewrite preceded_nil. apply IH.
Qed.

Lemma forEach_register transitionName r sources : forall m,
  run (forEach sources (fun source =>
         update (fun m =>
           let transitions := default ∅ (stateTransitions m !! source) in
           set_stateTransitions
             (<[source := pushRecord transitionName r transitions]> (stateTransitions m))
             m))) m
  = mkOutcome [] (registerAll transitionName r sources m) (inr tt).
Proof.
  induction sources as [ | s rest IH ]; intros m; [ reflexivity | ].
  cbn [forEach registerAll fold_left]. unfold run in *. rewrite bind_eq.
  unfold update at 1. cbn [result trace final]. rewrite preceded_nil. apply IH.
Qed.

(** [addTransition] as a function of the machine. *)
Lemma addTransition_run m transitionName sourceState dest cond leaveF enterF :
  run (addTransition transitionName sourceState dest cond leaveF enterF) m
  = let r := mkTransition dest cond leaveF enterF in
    if is_wildcard sourceState then
      mkOutcome []
        (set_wildcardTransitions (pushRecord transitionName r (wildcardTransitions m)) m)
        (inr tt)
    else
      match checkSources m (sourceStateArray sourceState) dest with
      | Some message => mkOutcome [] m (inl (SnowStateError message))
      | None =>
          mkOutcome [] (registerAll transitionName r (sourceStateArray sourceState) m)
                    (inr tt)
      end.
Proof.
  unfold addTransition, run. cbv zeta.
  destruct (is_wildcard sourceState); [ reflexivity | ].
  rewrite bind_eq.
  pose proof (forEach_check (sourceStateArray sourceState) dest m) as Hcheck.
  unfold run in Hcheck. rewrite Hcheck.
  destruct (checkSources m (sourceStateArray sourceState) dest);
    cbn [result trace final]; [ reflexivity | ].
  rewrite preceded_nil.
  apply (forEach_register transitionName (mkTransition dest cond leaveF enterF)).
Qed.

Lemma checkSources_None m sources dest :
  checkSources m sources dest = None <->
  Forall (fun source => hasState m source = true) sources
  /\ (sources <> [] -> hasState m dest = true).
Proof.
  induction sources as [ | s rest IH ]; cbn [checkSources].
  - split; [ intros _; split; [ constructor | congruence ] | reflexivity ].
  - destruct (hasState m s) eqn:Hs; cbn [negb].
    + destruct (hasState m dest) eqn:Hd; cbn [negb].
      * rewrite IH. split.
        -- intros [Hall _]. split; [ constructor; assumption | reflexivity ].
        -- intros [Hall _]. inversion Hall; subst. split; [ assumption | reflexivity ].
      * split; [ discriminate | ].
        intros [_ Hdest]. specialize (Hdest ltac:(discriminate)). discriminate.
    + split; [ discriminate | ].
      intros [Hall _]. inversion Hall; subst. congruence.
Qed.

Lemma transitionsOf_registerTransition transitionName r m source s' name' :
  transitionsOf (registerTransition transitionName r m source) s' name'
  = transitionsOf m s' name'
    ++ (if String.eqb source s' && String.eqb transitionName name' then [r] else []).
Proof.
  unfold transitionsOf, registerTransition. cbn [stateTransitions set_stateTransitions].
  destruct (String.eqb source s') eqn:Hs.
  - apply String.eqb_eq in Hs. subst s'. rewrite lookup_insert_eq.
    cbn [mbind option_bind]. unfold pushRecord.
    destruct (String.eqb transitionName name') eqn:Hn.
    + apply String.eqb_eq in Hn. subst name'. rewrite lookup_insert_eq.
      cbn [andb default].
      destruct (stateTransitions m !! source) as [t | ]; cbn [mbind option_bind default];
        [ reflexivity | rewrite lookup_empty; reflexivity ].
    + apply String.eqb_neq in Hn. rewrite lookup_insert_ne by exact Hn.
      cbn [andb]. rewrite app_nil_r.
      destruct (stateTransitions m !! source) as [t | ]; cbn [mbind option_bind default];
        [ reflexivity | rewrite lookup_empty; reflexivity ].
  - apply String.eqb_neq in Hs. rewrite lookup_insert_ne by exact Hs.
    cbn [andb]. rewrite app_nil_r. reflexivity.
Qed.

Lemma transitionsOf_registerAll transitionName r sources : forall m s' name',
  transitionsOf (registerAll transitionName r sources m) s' name'
  = transitionsOf m s' name'
    ++ (if String.eqb transitionName name'
        then replicate (count_occ string_dec sources s') r else []).
Proof.
  induction sources as [ | s rest IH ]; intros m s' name'.
  - simpl. destruct (String.eqb transitionName name'); rewrite app_nil_r; reflexivity.
  - change (registerAll transitionName r (s :: rest) m)
      with (registerAll transitionName r rest (registerTransition transitionName r m s)).
    rewrite IH, transitionsOf_registerTransition, <- app_assoc. f_equal.
    cbn [count_occ].
    destruct (string_dec s s') as [-> | Hne].
    + rewrite String.eqb_refl. cbn [andb].
      destruct (String.eqb transitionName name'); reflexivity.
    + apply String.eqb_neq in Hne. rewrite Hne. reflexivity.
Qed.

Lemma registerAll_frame transitionName r sources : forall m,
  let m' := registerAll transitionName r sources m in
  state m' = state m /\ stateObjects m' = stateObjects m
  /\ wildcardTransitions m' = wildcardTransitions m
  /\ previousState m' = previousState m /\ stateHistory m' = stateHistory m
  /\ defaultEventMethods m' = defaultEventMethods m
  /\ eventMethods m' = eventMethods m /\ addedEvents m' = addedEvents m
  /\ isHistoryEnabled m' = isHistoryEnabled m
  /\ maxHistorySize m' = maxHistorySize m
  /\ stateStartTime m' = stateStartTime m.
Proof.
  induction sources as [ | s rest IH ]; intros m; cbv zeta; [ tauto | ].
  change (registerAll transitionName r (s :: rest) m)
    with (registerAll transitionName r rest (registerTransition transitionName r m s)).
  specialize (IH (registerTransition transitionName r m s)). cbv zeta in IH.
  exact IH.
Qed.

Lemma transitionExists_of_list m transitionName sourceState :
  transitionsOf m sourceState transitionName <> [] ->
  transitionExists transitionName sourceState m = DEFINED.
Proof.
  unfold transitionsOf, transitionExists.
  destruct (stateTransitions m !! sourceState) as [t | ]; cbn [mbind option_bind default];
    [ | congruence ].
  destruct (t !! transitionName); cbn [default]; [ reflexivity | congruence ].
Qed.

(** X12: with a source that is not the wildcard, [addTransition] checks
    every source state, and the destination, with the test of
    [stateExists] before it stores anything: it goes through exactly
    when [stateExists] holds of all source states and, unless the list
    of sources is empty, of the destination too; when it fails, no
    source state has got the record and the machine is as it was. *)
Theorem addTransition_all_or_nothing m transitionName sourceState dest cond leaveF enterF :
  is_wildcard sourceState = false ->
  let r := run (addTransition transitionName sourceState dest cond leaveF enterF) m in
  (result r = inr tt <->
     Forall (fun source => stateExists source m = true) (sourceStateArray sourceState)
     /\ (sourceStateArray sourceState <> [] -> stateExists dest m = true))
  /\ (result r <> inr tt -> final r = m)
  /\ trace r = [].
Proof.
  intros Hw r. subst r. rewrite addTransition_run. cbv zeta. rewrite Hw.
  unfold stateExists.
  destruct (checkSources m (sourceStateArray sourceState) dest) as [message | ] eqn:Hc;
    cbn [result final trace].
  - split; [ | split; reflexivity ].
    split; [ discriminate | ]. intros Hok. apply checkSources_None in Hok. congruence.
  - split; [ | split; [ intros Hne; contradiction Hne | ]; reflexivity ].
    split; [ intros _; apply checkSources_None; exact Hc | reflexivity ].
Qed.

Lemma addTransition_all_or_nothing_witness :
  stateExists "fly" demo = false
  /\ final (run (addTransition "go" (Multiple ["idle"; "fly"]) "walk" None None None) demo)
     = demo.
Proof.
  split; [ vm_compute; reflexivity | ].
  destruct (addTransition_all_or_nothing demo "go" (Multiple ["idle"; "fly"]) "walk"
              None None None) as (_ & Hfail & _); [ reflexivity | ].
  apply Hfail. vm_compute. discriminate.
Defined.

(** X13: when [addTransition] with named sources goes through, the new
    record is put at the end of the list of every source state and the
    name, once for each time the state occurs among the sources; the
    lists of other names and other states, the wildcard lists, the
    registry and the current state are untouched. *)
Theorem addTransition_appends_everywhere
    m transitionName sourceState dest cond leaveF enterF :
  is_wildcard sourceState = false ->
  result (run (addTransition transitionName sourceState dest cond leaveF enterF) m)
  = inr tt ->
  let m' := final (run (addTransition transitionName sourceState dest cond leaveF enterF) m) in
  (forall source,
     transitionsOf m' source transitionName
     = transitionsOf m source transitionName
       ++ replicate (count_occ string_dec (sourceStateArray sourceState) source)
                    (mkTransition dest cond leaveF enterF))
  /\ (forall source name, name <> transitionName ->
        transitionsOf m' source name = transitionsOf m source name)
  /\ (forall source, In source (sourceStateArray sourceState) ->
        transitionExists transitionName source m' = DEFINED)
  /\ wildcardTransitions m' = wildcardTransitions m
  /\ stateObjects m' = stateObjects m
  /\ getCurrentState m' = getCurrentState m.
Proof.
  intros Hw Hres m'. subst m'. revert Hres. rewrite addTransition_run. cbv zeta.
  rewrite Hw.
  destruct (checkSources m (sourceStateArray sourceState) dest);
    cbn [result final]; [ discriminate | ]. intros _.
  destruct (registerAll_frame transitionName (mkTransition dest cond leaveF enterF)
              (sourceStateArray sourceState) m) as (Hst & Hobj & Hwild & _).
  split; [ | split; [ | split; [ | split; [ exact Hwild | split; [ exact Hobj | exact Hst ] ] ] ] ].
  - intros source. rewrite transitionsOf_registerAll, String.eqb_refl. reflexivity.
  - intros source name Hne. rewrite transitionsOf_registerAll.
    apply not_eq_sym in Hne. apply String.eqb_neq in Hne. rewrite Hne.
    apply app_nil_r.
  - intros source Hin. apply transitionExists_of_list.
    rewrite transitionsOf_registerAll, String.eqb_refl.
    apply (count_occ_In string_dec) in Hin.
    destruct (count_occ string_dec (sourceStateArray sourceState) source);
      [ lia | ].
    cbn [replicate]. intros Heq. apply app_eq_nil in Heq as [_ Heq]. discriminate.
Qed.

Lemma addTransition_appends_everywhere_witness :
  transitionsOf
    (final (run (addTransition "go" (Multiple ["idle"; "walk"]) "walk" None None None)
                goDemo))
    "idle" "go"
  = transitionsOf goDemo "idle" "go"
    ++ replicate (count_occ string_dec ["idle"; "walk"] "idle")
                 (mkTransition "walk" None None None).
Proof.
  destruct (addTransition_appends_everywhere goDemo "go" (Multiple ["idle"; "walk"])
              "walk" None None None) as (Happ & _).
  - reflexivity.
  - vm_compute. reflexivity.
  - apply Happ.
Defined.

(** X14: a wildcard transition is stored without any check of its
    destination: [addWildcardTransition] always goes through, puts the
    record at the end of the wildcard list of the name, leaves the other
    wildcard lists, the lists of the states and the registry alone, and
    [transitionExists] then answers DEFINED for that name from every
    source state, registered or not. *)
Theorem addWildcardTransition_unchecked m transitionName dest cond leaveF enterF :
  let r := run (addWildcardTransition transitionName dest cond leaveF enterF) m in
  result r = inr tt
  /\ trace r = []
  /\ wildcardList (final r) transitionName
     = wildcardList m transitionName ++ [mkTransition dest cond leaveF enterF]
  /\ (forall name, name <> transitionName ->
                   wildcardList (final r) name = wildcardList m name)
  /\ stateTransitions (final r) = stateTransitions m
  /\ stateObjects (final r) = stateObjects m
  /\ (forall sourceState, transitionExists transitionName sourceState (final r) = DEFINED).
Proof.
  unfold addWildcardTransition. rewrite addTransition_run.
  cbn [is_wildcard]. unfold SONWSTATE_WILDCARD_TRANSITION_NAME.
  rewrite String.eqb_refl. cbn [result trace final].
  unfold wildcardList. cbn [wildcardTransitions set_wildcardTransitions
                            stateTransitions stateObjects].
  split; [ reflexivity | ]. split; [ reflexivity | ].
  split; [ rewrite pushRecord_lookup; reflexivity | ].
  split; [ intros name Hne; unfold pushRecord; rewrite lookup_insert_ne by congruence;
           reflexivity | ].
  split; [ reflexivity | ]. split; [ reflexivity | ].
  intros sourceState. unfold transitionExists.
  cbn [wildcardTransitions set_wildcardTransitions stateTransitions].
  rewrite pushRecord_lookup.
  destruct (stateTransitions m !! sourceState) as [t | ]; [ | reflexivity ].
  destruct (t !! transitionName); reflexivity.
Qed.



(** ** More on trigger *)

Lemma committed_cursor m stateName now :
  previousState (committed m stateName now) = Some (state m)
  /\ stateStartTime (committed m stateName now) = now.
Proof.
  unfold committed, pushHistory.
  destruct (isHistoryEnabled m) eqn:Hen; [ destruct (_ >? _) | ]; simpl;
    rewrite ?Hen; split; reflexivity.
Qed.

Lemma trigger_wildcard_fires m transitionName data now pre r post :
  Forall rejected (specificList m transitionName) ->
  wildcardList m transitionName = pre ++ r :: post ->
  Forall rejected pre -> passesNow r = true ->
  run (trigger transitionName data now) m
  = preceded (guardTrace (specificList m transitionName ++ pre ++ [r]))
      (run (change (resolveDest m r) (leaveFunc r) (enterFunc r) data now) m).
Proof.
  intros Hspec Hlist Hpre Hr.
  rewrite trigger_unfold, fireFirst_none by assumption.
  cbv zeta. cbn [result trace final].
  rewrite Hlist, fireFirst_fires by assumption.
  unfold fired, preceded. cbn [result trace final].
  rewrite !guardTrace_app, <- !app_assoc.
  destruct (result (run (change _ _ _ _ _) m)) as [e | []]; reflexivity.
Qed.

(** X16: a wildcard transition whose destination is the marker ["="]
    re-enters the current state: fired from a registered state, it calls
    the leave phase and then the enter phase of that same state, the
    current state stays, the previous state becomes the current state
    itself and the time of the state restarts. *)
Theorem trigger_reflexive_wildcard m transitionName data now pre r post currentState :
  Forall rejected (specificList m transitionName) ->
  wildcardList m transitionName = pre ++ r :: post ->
  Forall rejected pre -> passesNow r = true ->
  destState r = SNOWSTATE_REFLEXIVE_TRANSITION_NAME ->
  stateObjects m !! state m = Some currentState ->
  let o := run (trigger transitionName data now) m in
  result o = inr tt
  /\ getCurrentState (final o) = getCurrentState m
  /\ getPreviousState (final o) = Some (getCurrentState m)
  /\ getTime now (final o) = 0
  /\ trace o
     = guardTrace (specificList m transitionName ++ pre ++ [r])
       ++ leaveCalls m (leaveFunc r) data
       ++ enterCalls m (state m) (enterFunc r) data.
Proof.
  intros Hspec Hlist Hpre Hr Hdest Hcur o. subst o.
  rewrite (trigger_wildcard_fires m transitionName data now pre r post) by assumption.
  assert (Hres : resolveDest m r = state m).
  { unfold resolveDest. rewrite Hdest, String.eqb_refl. reflexivity. }
  rewrite Hres, change_ok by (rewrite ?Hcur; eauto).
  unfold preceded. cbn [result trace final].
  destruct (committed_frame m (state m) now) as (Hst & _).
  destruct (committed_cursor m (state m) now) as (Hprev & Htime).
  unfold getCurrentState, getPreviousState, getTime. rewrite Hst, Hprev, Htime.
  split; [ reflexivity | ]. split; [ reflexivity | ].
  split; [ reflexivity | ]. split; [ lia | reflexivity ].
Qed.

Lemma trigger_reflexive_wildcard_witness :
  let m := final (run (addWildcardTransition "reset" "=" None None None) demo) in
  getCurrentState (final (run (trigger "reset" VUndefined 9) m)) = getCurrentState m
  /\ trace (run (trigger "reset" VUndefined 9) m)
     = guardTrace (specificList m "reset" ++ [] ++ [mkTransition "=" None None None])
       ++ leaveCalls m None VUndefined ++ enterCalls m (state m) None VUndefined.
Proof.
  cbv zeta.
  set (m := final (run (addWildcardTransition "reset" "=" None None None) demo)).
  assert (Hspec : specificList m "reset" = []) by (vm_compute; reflexivity).
  assert (Hwild : wildcardList m "reset" = [] ++ mkTransition "=" None None None :: [])
    by (vm_compute; reflexivity).
  destruct (trigger_reflexive_wildcard m "reset" VUndefined 9 []
              (mkTransition "=" None None None) []
              [("enter", idleEnter); ("leave", idleLeave)])
    as (_ & Hcur & _ & _ & Htrace).
  - rewrite Hspec. constructor.
  - exact Hwild.
  - constructor.
  - reflexivity.
  - reflexivity.
  - vm_compute. reflexivity.
  - split; [ exact Hcur | exact Htrace ].
Defined.

(** X17: a wildcard transition is stored unchecked, so its destination
    is tested only when it fires: when [stateExists] does not hold of
    the destination then, [trigger] throws "State '...' does not exist",
    no leave or enter function has been called and the machine is as it
    was.  The same happens to a reflexive wildcard fired from a current
    state of which [stateExists] does not hold. *)
Theorem trigger_wildcard_unknown_destination m transitionName data now pre r post :
  Forall rejected (specificList m transitionName) ->
  wildcardList m transitionName = pre ++ r :: post ->
  Forall rejected pre -> passesNow r = true ->
  stateExists (resolveDest m r) m = false ->
  let o := run (trigger transitionName data now) m in
  result o = inl (SnowStateError ("State '" +:+ resolveDest m r +:+ "' does not exist"))
  /\ final o = m
  /\ trace o = guardTrace (specificList m transitionName ++ pre ++ [r])
  /\ (forall f args, ~ In (Call f args) (trace o)).
Proof.
  intros Hspec Hlist Hpre Hr Hdest o. subst o.
  rewrite (trigger_wildcard_fires m transitionName data now pre r post) by assumption.
  rewrite change_unregistered_dest by exact Hdest.
  unfold preceded. cbn [result trace final]. rewrite app_nil_r.
  split; [ reflexivity | ]. split; [ reflexivity | ]. split; [ reflexivity | ].
  intros f args. apply guardTrace_no_call.
Qed.

Lemma trigger_wildcard_unknown_destination_witness :
  let m := final (run (addWildcardTransition "fly" "air" None None None) demo) in
  stateExists "air" m = false
  /\ result (run (trigger "fly" VUndefined 9) m)
     = inl (SnowStateError
              ("State '" +:+ resolveDest m (mkTransition "air" None None None)
               +:+ "' does not exist"))
  /\ final (run (trigger "fly" VUndefined 9) m) = m.
Proof.
  cbv zeta.
  set (m := final (run (addWildcardTransition "fly" "air" None None None) demo)).
  assert (Hspec : specificList m "fly" = []) by (vm_compute; reflexivity).
  assert (Hwild : wildcardList m "fly" = [] ++ mkTransition "air" None None None :: [])
    by (vm_compute; reflexivity).
  assert (Hair : stateExists "air" m = false) by (vm_compute; reflexivity).
  destruct (trigger_wildcard_unknown_destination m "fly" VUndefined 9 []
              (mkTransition "air" None None None) [])
    as (Hres & Hfinal & _).
  - rewrite Hspec. constructor.
  - exact Hwild.
  - constructor.
  - reflexivity.
  - exact Hair.
  - split; [ exact Hair | ]. split; [ exact Hres | exact Hfinal ].
Defined.

(** X18: when [transitionExists] answers NOT_DEFINED for a name and the
    current state, [trigger] of that name does nothing at all: it
    evaluates no condition, calls no function, returns normally and
    leaves the machine as it was. *)
Theorem trigger_of_undefined_transition m transitionName data now :
  transitionExists transitionName (getCurrentState m) m = NOT_DEFINED ->
  run (trigger transitionName data now) m = mkOutcome [] m (inr tt).
Proof.
  unfold transitionExists, getCurrentState. intros Hnot.
  assert (Hspec : specificList m transitionName = []).
  { unfold specificList, transitionsOf.
    destruct (stateTransitions m !! state m) as [t | ]; cbn [mbind option_bind default];
      [ | reflexivity ].
    destruct (t !! transitionName); [ discriminate | reflexivity ]. }
  assert (Hwild : wildcardList m transitionName = []).
  { unfold wildcardList.
    destruct (stateTransitions m !! state m) as [t | ].
    - destruct (t !! transitionName); [ discriminate | ].
      destruct (wildcardTransitions m !! transitionName); [ discriminate | reflexivity ].
    - destruct (wildcardTransitions m !! transitionName); [ discriminate | reflexivity ]. }
  rewrite trigger_unfold, fireFirst_none by (rewrite Hspec; constructor).
  cbv zeta. cbn [result trace final].
  rewrite fireFirst_none by (rewrite Hwild; constructor).
  cbn [result trace final]. rewrite Hspec, Hwild. reflexivity.
Qed.

Lemma trigger_of_undefined_transition_witness :
  run (trigger "jump" VUndefined 3) goDemo = mkOutcome [] goDemo (inr tt).
Proof.
  apply (trigger_of_undefined_transition goDemo "jump" VUndefined 3).
  vm_compute. reflexivity.
Defined.

(** ** One trigger, at most one change *)


Lemma fireFirst_final data now l : forall m,
  let o := run (fireFirst l data now) m in
  (result o = inr false /\ final o = m)
  \/ (exists rec, In rec l /\ passesNow rec = true
        /\ ((result o = inr true /\ final o = committed m (resolveDest m rec) now
             /\ hasState m (resolveDest m rec) = true)
            \/ ((exists e, result o = inl e) /\ final o = m))).
Proof.
  induction l as [ | r rest IH ]; intros m; cbv zeta.
  - left. split; reflexivity.
  - rewrite fireFirst_cons. unfold preceded. cbn [result final].
    destruct (passesNow r) eqn:Hr.
    + right. exists r. split; [ left; reflexivity | ]. split; [ exact Hr | ].
      unfold fired. cbn [result final].
      destruct (change_cases m (resolveDest m r) (leaveFunc r) (enterFunc r) data now);
        cbn [result final] in *; eauto.
    + destruct (IH m) as [Hnone | (rec & Hin & Hp & Hcase)]; [ left; exact Hnone | ].
      right. exists rec. split; [ right; exact Hin | ]. split; assumption.
Qed.

(** X19: a call of [trigger] that returns has performed at most one
    change: either the machine is exactly as it was (no record passed),
    or it is the machine that a change to the destination of one passing
    record, taken from the list of the current state or from the
    wildcard list, leaves behind, and [stateExists] held of that
    destination. *)
Theorem trigger_at_most_one_change m transitionName data now :
  let o := run (trigger transitionName data now) m in
  result o = inr tt ->
  final o = m
  \/ (exists rec,
        (In rec (specificList m transitionName) \/ In rec (wildcardList m transitionName))
        /\ passesNow rec = true
        /\ stateExists (resolveDest m rec) m = true
        /\ final o = committed m (resolveDest m rec) now).
Proof.
  cbv zeta. rewrite trigger_unfold. cbv zeta. unfold stateExists.
  destruct (fireFirst_final data now (specificList m transitionName) m)
    as [[Hres Hfin] | (rec & Hin & Hp & [(Hres & Hfin & Hreg) | [[e Hres] Hfin]])];
    rewrite Hres; cbv beta iota zeta; cbn [result final].
  - rewrite Hfin.
    destruct (fireFirst_final data now (wildcardList m transitionName) m)
      as [[Hres' Hfin'] | (rec & Hin & Hp & [(Hres' & Hfin' & Hreg) | [[e Hres'] Hfin']])];
      rewrite Hres'; cbn [result final]; intros Hok.
    + left. exact Hfin'.
    + right. exists rec. split; [ right; exact Hin | ]. split; [ exact Hp | ].
      split; [ exact Hreg | exact Hfin' ].
    + discriminate.
  - intros _. right. exists rec. split; [ left; exact Hin | ]. split; [ exact Hp | ].
    split; [ exact Hreg | exact Hfin ].
  - discriminate.
Qed.

Lemma trigger_at_most_one_change_witness :
  result (run (trigger "go" VUndefined 7) goDemo) = inr tt
  /\ (final (run (trigger "go" VUndefined 7) goDemo) = goDemo
      \/ exists rec,
           (In rec (specificList goDemo "go") \/ In rec (wildcardList goDemo "go"))
           /\ passesNow rec = true
           /\ stateExists (resolveDest goDemo rec) goDemo = true
           /\ final (run (trigger "go" VUndefined 7) goDemo)
              = committed goDemo (resolveDest goDemo rec) 7).
Proof.
  assert (Hres : result (run (trigger "go" VUndefined 7) goDemo) = inr tt)
    by (vm_compute; reflexivity).
  split; [ exact Hres | ].
  exact (trigger_at_most_one_change goDemo "go" VUndefined 7 Hres).
Defined.

Lemma trigger_final_cases m transitionName data now :
  final (run (trigger transitionName data now) m) = m
  \/ exists stateName,
       hasState m stateName = true
       /\ final (run (trigger transitionName data now) m) = committed m stateName now.
Proof.
  rewrite trigger_unfold. cbv zeta.
  destruct (fireFirst_final data now (specificList m transitionName) m)
    as [[Hres Hfin] | (rec & Hin & Hp & [(Hres & Hfin & Hreg) | [[e Hres] Hfin]])];
    rewrite Hres; cbv beta iota zeta; cbn [result final].
  - rewrite Hfin.
    destruct (fireFirst_final data now (wildcardList m transitionName) m)
      as [[Hres' Hfin'] | (rec & Hin & Hp & [(Hres' & Hfin' & Hreg) | [[e Hres'] Hfin']])];
      rewrite Hfin'; eauto.
  - right. eauto.
  - left. exact Hfin.
Qed.

(** ** What every reachable machine satisfies *)

Lemma wellFormed_create initialState now :
  wellFormed (createSnowState initialState now).
Proof.
  unfold wellFormed. split; [ apply historyBounded_create | ].
  simpl. split; [ set_solver | ]. split; [ set_solver | ].
  intros source name r Hin. unfold transitionsOf in Hin. simpl in Hin.
  rewrite lookup_empty in Hin. destruct Hin.
Qed.

Lemma wellFormed_sameRegistry m m' :
  wellFormed m -> sameRegistry m m' -> historyBounded m' -> wellFormed m'.
Proof.
  intros (_ & Hadded & Hres & Htr) (Hobj & Htrans & Hadd & Hev) Hb.
  unfold wellFormed. rewrite Hadd, Hev.
  split; [ exact Hb | ]. split; [ exact Hadded | ]. split; [ exact Hres | ].
  intros source name r. unfold transitionsOf. rewrite Htrans.
  rewrite !(hasState_same m m') by exact Hobj. apply Htr.
Qed.

Lemma sameRegistry_refl m : sameRegistry m m.
Proof. unfold sameRegistry. tauto. Qed.

Lemma sameRegistry_committed m stateName now :
  sameRegistry m (committed m stateName now).
Proof.
  unfold sameRegistry, committed, pushHistory.
  destruct (isHistoryEnabled m) eqn:Hen; [ destruct (_ >? _) | ]; simpl;
    rewrite ?Hen; tauto.
Qed.

Lemma historyBounded_committed m stateName now :
  historyBounded m -> historyBounded (committed m stateName now).
Proof.
  intros [Hmax Hlen]. unfold historyBounded, committed, pushHistory. simpl.
  destruct (isHistoryEnabled m); simpl; [ | split; assumption ].
  destruct (_ >? _) eqn:Hgt; simpl; split; try assumption.
  - unfold shift. rewrite length_tl, length_app in *. simpl in *. lia.
  - rewrite Z.gtb_ltb in Hgt. apply Z.ltb_ge in Hgt. exact Hgt.
Qed.

Lemma wellFormed_committed m stateName now :
  wellFormed m -> wellFormed (committed m stateName now).
Proof.
  intros Hwf. apply (wellFormed_sameRegistry m); [ exact Hwf | | ].
  - apply sameRegistry_committed.
  - apply historyBounded_committed. apply Hwf.
Qed.

Lemma wellFormed_change m stateName leaveF enterF data now :
  wellFormed m -> wellFormed (final (run (change stateName leaveF enterF data now) m)).
Proof.
  intros Hwf.
  destruct (change_cases m stateName leaveF enterF data now); cbn [final];
    try exact Hwf.
  apply wellFormed_committed. exact Hwf.
Qed.

Lemma wellFormed_trigger m transitionName data now :
  wellFormed m -> wellFormed (final (run (trigger transitionName data now) m)).
Proof.
  intros Hwf.
  destruct (trigger_final_cases m transitionName data now) as [-> | (s & _ & ->)];
    [ exact Hwf | apply wellFormed_committed; exact Hwf ].
Qed.

Lemma not_reserved_of_falsy m key :
  truthyMember m key = false -> inList key instanceFields = false ->
  reserved key = false.
Proof.
  unfold truthyMember, lookupMember, reserved. intros Ht Hfield. rewrite Hfield in *.
  destruct (bool_decide (key ∈ eventMethods m)); [ discriminate | ].
  destruct (inList key classMethods); [ discriminate | ].
  destruct (inList key objectPrototypeMembers); [ discriminate | reflexivity ].
Qed.

Lemma wellFormed_attach m eventName :
  wellFormed m -> inList eventName instanceFields = false ->
  wellFormed (attach eventName m).
Proof.
  intros (Hb & Hadded & Hres & Htr) Hfield.
  destruct (truthyMember m eventName) eqn:Ht.
  - rewrite attach_idle by exact Ht. unfold wellFormed. tauto.
  - unfold attach. rewrite Ht. unfold wellFormed. simpl.
    split; [ exact Hb | ]. split; [ rewrite Hadded; set_solver | ].
    split; [ | exact Htr ].
    intros key Hkey. apply elem_of_union in Hkey as [Hkey | Hkey].
    + apply elem_of_singleton in Hkey. subst key.
      apply (not_reserved_of_falsy m); assumption.
    + apply Hres. exact Hkey.
Qed.

Lemma wellFormed_attachAll eventNames : forall m,
  wellFormed m ->
  (forall key, In key eventNames -> inList key instanceFields = false) ->
  wellFormed (attachAll eventNames m).
Proof.
  induction eventNames as [ | k rest IH ]; intros m Hwf Hkeys; [ exact Hwf | ].
  cbn [attachAll fold_left]. apply IH.
  - apply wellFormed_attach; [ exact Hwf | apply Hkeys; left; reflexivity ].
  - intros key Hin. apply Hkeys. right. exact Hin.
Qed.

Lemma legal_keys_are_no_fields m eventNames :
  wellFormed m -> illegalKeys m eventNames = [] ->
  forall key, In key eventNames -> inList key instanceFields = false.
Proof.
  intros (_ & Hadded & Hres & _) Hill key Hin.
  destruct (inList key instanceFields) eqn:Hfield; [ exfalso | reflexivity ].
  assert (Hnot : key ∉ eventMethods m).
  { intros Hev. apply Hres in Hev. unfold reserved in Hev. rewrite Hfield in Hev.
    discriminate. }
  assert (Hown : hasOwnProperty m key = true).
  { unfold hasOwnProperty, lookupMember.
    rewrite bool_decide_eq_false_2 by exact Hnot. rewrite Hfield. reflexivity. }
  pose proof (proj1 (illegalKeys_nil m eventNames) Hill key Hin Hown) as Hk.
  rewrite Hadded in Hk.
  apply elem_of_union in Hk as [Hk | Hk]; [ | contradiction ].
  apply elem_of_union in Hk as [Hk | Hk]; apply elem_of_singleton in Hk; subst key;
    vm_compute in Hfield; discriminate.
Qed.

Lemma wellFormed_set_stateObjects m stateName stateObject :
  wellFormed m ->
  wellFormed (set_stateObjects (<[stateName := stateObject]> (stateObjects m)) m).
Proof.
  intros (Hb & Hadded & Hres & Htr). unfold wellFormed. simpl.
  split; [ exact Hb | ]. split; [ exact Hadded | ]. split; [ exact Hres | ].
  intros source name r Hin. destruct (Htr source name r Hin) as [Hs Hd].
  split; eapply (hasState_insert m); try reflexivity; assumption.
Qed.

Lemma wellFormed_set_defaultEventMethods m d :
  wellFormed m -> wellFormed (set_defaultEventMethods d m).
Proof. intros Hwf. exact Hwf. Qed.

Lemma wellFormed_add m stateName stateObject :
  wellFormed m -> wellFormed (final (run (add stateName stateObject) m)).
Proof.
  intros Hwf. rewrite add_run.
  destruct (illegalKeys m (keys stateObject)) eqn:Hill; cbn [final]; [ | exact Hwf ].
  apply wellFormed_attachAll.
  - apply wellFormed_set_stateObjects. exact Hwf.
  - apply (legal_keys_are_no_fields m); assumption.
Qed.

Lemma wellFormed_eventSetDefaultMethod m eventName method :
  wellFormed m -> wellFormed (final (run (eventSetDefaultMethod eventName method) m)).
Proof.
  intros Hwf. rewrite eventSetDefaultMethod_run.
  destruct (illegalKeys m [eventName]) eqn:Hill; cbn [final]; [ | exact Hwf ].
  apply wellFormed_attach.
  - apply wellFormed_set_defaultEventMethods. exact Hwf.
  - apply (legal_keys_are_no_fields m [eventName]); [ assumption | assumption | ].
    left. reflexivity.
Qed.

Lemma checkSources_registered m sources dest :
  checkSources m sources dest = None ->
  forall source, In source sources ->
    hasState m source = true /\ hasState m dest = true.
Proof.
  intros Hc source Hin. apply checkSources_None in Hc as [Hall Hdest].
  split.
  - rewrite Forall_forall in Hall. apply Hall. apply list_elem_of_In. exact Hin.
  - apply Hdest. intros ->. destruct Hin.
Qed.

Lemma wellFormed_addTransition m transitionName sourceState dest cond leaveF enterF :
  wellFormed m ->
  wellFormed (final (run (addTransition transitionName sourceState dest cond leaveF enterF) m)).
Proof.
  intros Hwf. rewrite addTransition_run. cbv zeta.
  destruct (is_wildcard sourceState); cbn [final].
  - apply (wellFormed_sameRegistry m); [ exact Hwf | | apply Hwf ].
    unfold sameRegistry. simpl. tauto.
  - destruct (checkSources m (sourceStateArray sourceState) dest) eqn:Hc;
      cbn [final]; [ exact Hwf | ].
    destruct Hwf as (Hb & Hadded & Hres & Htr).
    destruct (registerAll_frame transitionName (mkTransition dest cond leaveF enterF)
                (sourceStateArray sourceState) m)
      as (_ & Hobj & _ & _ & Hhist & _ & Hev & Hadd & _ & Hmax & _).
    unfold wellFormed, historyBounded. rewrite Hhist, Hev, Hadd, Hmax.
    split; [ exact Hb | ]. split; [ exact Hadded | ]. split; [ exact Hres | ].
    intros source name r.
    rewrite (hasState_same m _ source Hobj), (hasState_same m _ (destState r) Hobj).
    rewrite transitionsOf_registerAll.
    rewrite in_app_iff. intros [Hold | Hnew]; [ apply Htr with name; exact Hold | ].
    destruct (String.eqb transitionName name); [ | destruct Hnew ].
    apply list_elem_of_In, elem_of_replicate in Hnew.
    destruct Hnew as [-> Hcount].
    cbn [destState].
    apply (checkSources_registered m (sourceStateArray sourceState) dest Hc).
    apply (count_occ_In string_dec). lia.
Qed.

Lemma historyBounded_setMaxSize m n :
  historyBounded m -> historyBounded (final (run (historySetMaxSize n) m)).
Proof.
  intros Hb. destruct (Z.lt_ge_cases n 1) as [Hn | Hn].
  - rewrite historySetMaxSize_throws by exact Hn. exact Hb.
  - rewrite historySetMaxSize_ok by exact Hn.
    unfold historyBounded. simpl. split; [ exact Hn | ].
    rewrite length_drop. lia.
Qed.

Lemma sameRegistry_historySetMaxSize m n :
  sameRegistry m (final (run (historySetMaxSize n) m)).
Proof.
  destruct (Z.lt_ge_cases n 1) as [Hn | Hn].
  - rewrite historySetMaxSize_throws by exact Hn. apply sameRegistry_refl.
  - rewrite historySetMaxSize_ok by exact Hn. unfold sameRegistry. simpl. tauto.
Qed.

Lemma callDefault_run m m' eventName :
  run (callDefault m eventName) m'
  = mkOutcome (match defaultEventMethods m !! eventName with
               | Some d => [Call d []]
               | None => []
               end) m' (inr tt).
Proof. unfold run, callDefault. destruct (defaultEventMethods m !! eventName); reflexivity. Qed.

(** [enter], [leave] and the attached events end in a TypeError exactly
    when the current state is not found in [stateObjects], and never
    change the machine. *)
Lemma enter_outcome m data :
  final (run (enter data) m) = m
  /\ result (run (enter data) m)
     = if hasState m (state m) then inr tt else inl TypeError.
Proof.
  unfold run, enter, hasState. rewrite bind_eq, this_eq. cbn [result trace final].
  rewrite preceded_nil.
  destruct (lookupState m (state m)) as [o | | ]; [ | | split; reflexivity ].
  - destruct (getProp o "enter"); [ split; reflexivity | ].
    pose proof (callDefault_run m m "enter") as Hd. unfold run in Hd. rewrite Hd.
    split; reflexivity.
  - pose proof (callDefault_run m m "enter") as Hd. unfold run in Hd. rewrite Hd.
    split; reflexivity.
Qed.

Lemma leave_outcome m data :
  final (run (leave data) m) = m
  /\ result (run (leave data) m)
     = if hasState m (state m) then inr tt else inl TypeError.
Proof.
  unfold run, leave, hasState. rewrite bind_eq, this_eq. cbn [result trace final].
  rewrite preceded_nil.
  destruct (lookupState m (state m)) as [o | | ]; [ | | split; reflexivity ].
  - destruct (getProp o "leave"); [ split; reflexivity | ].
    pose proof (callDefault_run m m "leave") as Hd. unfold run in Hd. rewrite Hd.
    split; reflexivity.
  - pose proof (callDefault_run m m "leave") as Hd. unfold run in Hd. rewrite Hd.
    split; reflexivity.
Qed.

Lemma dispatch_outcome m eventName :
  final (run (dispatch eventName) m) = m
  /\ result (run (dispatch eventName) m)
     = if hasState m (state m) then inr tt else inl TypeError.
Proof.
  unfold run, dispatch, hasState. rewrite bind_eq, this_eq. cbn [result trace final].
  rewrite preceded_nil.
  destruct (lookupState m (state m)) as [o | | ]; [ | | split; reflexivity ].
  - destruct (getProp o eventName); [ split; reflexivity | ].
    destruct (defaultEventMethods m !! eventName); split; reflexivity.
  - destruct (defaultEventMethods m !! eventName); split; reflexivity.
Qed.

Lemma final_enter m data : final (run (enter data) m) = m.
Proof. apply enter_outcome. Qed.

Lemma final_leave m data : final (run (leave data) m) = m.
Proof. apply leave_outcome. Qed.

Lemma final_dispatch m eventName : final (run (dispatch eventName) m) = m.
Proof. apply dispatch_outcome. Qed.

Lemma final_callEvent m eventName : final (run (callEvent eventName) m) = m.
Proof.
  unfold run, callEvent. rewrite bind_eq, this_eq. cbn [result trace final].
  destruct (lookupMember m eventName); try reflexivity.
  unfold preceded. cbn [final]. apply final_dispatch.
Qed.

Lemma wellFormed_exec c m : wellFormed m -> wellFormed (final (run (exec c) m)).
Proof.
  intros Hwf. destruct c; cbn [exec].
  - apply wellFormed_add. exact Hwf.
  - apply wellFormed_eventSetDefaultMethod. exact Hwf.
  - apply wellFormed_change. exact Hwf.
  - apply wellFormed_trigger. exact Hwf.
  - apply wellFormed_addTransition. exact Hwf.
  - exact Hwf.
  - exact Hwf.
  - apply (wellFormed_sameRegistry m); [ exact Hwf | | ].
    + apply sameRegistry_historySetMaxSize.
    + apply historyBounded_setMaxSize. apply Hwf.
  - unfold setTime. destruct (time <? 0); exact Hwf.
  - rewrite final_enter. exact Hwf.
  - rewrite final_leave. exact Hwf.
  - rewrite final_callEvent. exact Hwf.
Qed.

Lemma wellFormed_runAll program : forall m,
  wellFormed m -> wellFormed (runAll program m).
Proof.
  induction program as [ | c rest IH ]; intros m Hwf; [ exact Hwf | ].
  cbn [runAll]. apply IH, wellFormed_exec, Hwf.
Qed.

Lemma reachable_wellFormed m : reachable m -> wellFormed m.
Proof.
  intros (initialState & now & program & ->).
  apply wellFormed_runAll, wellFormed_create.
Qed.





Lemma reachable_goDemo : reachable goDemo.
Proof. exists "idle", 1000, goProgram. vm_compute. reflexivity. Qed.

(** X20: on every machine a program can build, whatever calls it makes
    and whichever of them throw, the history holds at most as many
    entries as its cap, and the cap is at least 1.  The sizes a program
    gives to [historySetMaxSize] are integers. *)
Theorem reachable_history_bounded m :
  reachable m ->
  1 <= historyGetMaxSize m
  /\ Z.of_nat (length (historyGet m)) <= historyGetMaxSize m.
Proof. intros Hr. apply (reachable_wellFormed m Hr). Qed.

Lemma reachable_history_bounded_witness :
  let m := runAll (goProgram
                   ++ [ CHistoryEnable; CHistorySetMaxSize 2;
                        CChange "walk" None None VUndefined 1;
                        CChange "run" None None VUndefined 2;
                        CHistorySetMaxSize 0;
                        CChange "idle" None None VUndefined 3;
                        CTrigger "go" VUndefined 4 ])
                  (createSnowState "idle" 1000) in
  historyGet m = ["run"; "idle"]
  /\ historyGetMaxSize m = 2
  /\ 1 <= historyGetMaxSize m
  /\ Z.of_nat (length (historyGet m)) <= historyGetMaxSize m.
Proof.
  cbv zeta.
  split; [ vm_compute; reflexivity | ]. split; [ vm_compute; reflexivity | ].
  apply (reachable_history_bounded
           (runAll (goProgram
                    ++ [ CHistoryEnable; CHistorySetMaxSize 2;
                         CChange "walk" None None VUndefined 1;
                         CChange "run" None None VUndefined 2;
                         CHistorySetMaxSize 0;
                         CChange "idle" None None VUndefined 3;
                         CTrigger "go" VUndefined 4 ])
                   (createSnowState "idle" 1000))).
  exists "idle", 1000,
    (goProgram
     ++ [ CHistoryEnable; CHistorySetMaxSize 2;
          CChange "walk" None None VUndefined 1;
          CChange "run" None None VUndefined 2;
          CHistorySetMaxSize 0;
          CChange "idle" None None VUndefined 3;
          CTrigger "go" VUndefined 4 ]).
  reflexivity.
Defined.

(** X21: no program ever replaces a field of the instance, a method of
    the class or a member inherited from [Object.prototype] by an event
    function: such a name resolves as on a new instance, an attached
    event always has a name that was free, and the added events are the
    attached events together with "enter" and "leave". *)
Theorem reachable_members_stable m key :
  reachable m ->
  (reserved key = true ->
   lookupMember m key = lookupMember (createSnowState (state m) 0) key)
  /\ (lookupMember m key = EventMethod -> reserved key = false /\ key ∈ addedEvents m)
  /\ addedEvents m = {["enter"; "leave"]} ∪ eventMethods m.
Proof.
  intros Hr. destruct (reachable_wellFormed m Hr) as (_ & Hadded & Hres & _).
  split; [ | split; [ | exact Hadded ] ].
  - intros Hkey. unfold lookupMember. simpl.
    destruct (bool_decide (key ∈ eventMethods m)) eqn:Hdec.
    + apply bool_decide_eq_true in Hdec. apply Hres in Hdec. congruence.
    + rewrite bool_decide_eq_false_2 by set_solver. reflexivity.
  - unfold lookupMember. intros Hlook.
    destruct (bool_decide (key ∈ eventMethods m)) eqn:Hdec.
    + apply bool_decide_eq_true in Hdec.
      split; [ apply Hres; exact Hdec | rewrite Hadded; set_solver ].
    + destruct (inList key instanceFields); [ discriminate | ].
      destruct (inList key classMethods); [ discriminate | ].
      destruct (inList key objectPrototypeMembers); discriminate.
Qed.

Lemma reachable_members_stable_witness :
  lookupMember goDemo "change" = lookupMember (createSnowState (state goDemo) 0) "change".
Proof.
  apply (proj1 (reachable_members_stable goDemo "change" reachable_goDemo)).
  reflexivity.
Defined.






(** ** Where the data goes *)

Lemma fireFirst_calls data now f args l : forall m,
  In (Call f args) (trace (run (fireFirst l data now) m)) ->
  exists rec,
    In rec l
    /\ In (Call f args)
          (trace (run (change (resolveDest m rec) (leaveFunc rec) (enterFunc rec)
                              data now) m)).
Proof.
  induction l as [ | r rest IH ]; intros m; [ intros [] | ].
  rewrite fireFirst_cons. unfold preceded. cbn [trace].
  rewrite in_app_iff. intros [Hguard | Hin].
  - exfalso. exact (guardTrace_no_call [r] f args Hguard).
  - destruct (passesNow r).
    + exists r. split; [ left; reflexivity | exact Hin ].
    + destruct (IH m Hin) as (rec & Hrec & Hcall).
      exists rec. split; [ right; exact Hrec | exact Hcall ].
Qed.

(** X24: the data given to [trigger] reaches only the leave and enter
    overrides of the record that fires: every function called during a
    trigger is called either without arguments (a function registered
    with a state) or with the data alone, and then it is the leave or
    enter override of a record of the list of the current state or of
    the wildcard list. *)
Theorem trigger_call_arguments m transitionName data now f args :
  In (Call f args) (trace (run (trigger transitionName data now) m)) ->
  args = []
  \/ (args = [data]
      /\ exists rec,
           (In rec (specificList m transitionName)
            \/ In rec (wildcardList m transitionName))
           /\ (leaveFunc rec = Some f \/ enterFunc rec = Some f)).
Proof.
  rewrite trigger_unfold. cbv zeta.
  assert (Hcase : forall l,
             In (Call f args) (trace (run (fireFirst l data now) m)) ->
             args = [] \/ (args = [data] /\ exists rec,
                             In rec l /\ (leaveFunc rec = Some f \/ enterFunc rec = Some f))).
  { intros l Hin. destruct (fireFirst_calls data now f args l m Hin) as (rec & Hrec & Hcall).
    destruct (change_call_arguments _ _ _ _ _ _ _ _ Hcall) as [Hnil | [Hdata Hover]];
      [ left; exact Hnil | right ].
    split; [ exact Hdata | ]. exists rec. split; assumption. }
  destruct (fireFirst_final data now (specificList m transitionName) m)
    as [[Hres Hfin] | (rec & Hin & Hp & [(Hres & Hfin & Hreg) | [[e Hres] Hfin]])];
    rewrite Hres; cbv beta iota zeta; cbn [trace].
  - rewrite Hfin, in_app_iff. intros [Hs | Hw].
    + destruct (Hcase _ Hs) as [Hnil | (Hdata & rec & Hrec & Hover)]; [ left; exact Hnil | ].
      right. split; [ exact Hdata | ]. exists rec. tauto.
    + destruct (Hcase _ Hw) as [Hnil | (Hdata & rec & Hrec & Hover)]; [ left; exact Hnil | ].
      right. split; [ exact Hdata | ]. exists rec. tauto.
  - intros Hs.
    destruct (Hcase _ Hs) as [Hnil | (Hdata & rec' & Hrec & Hover)]; [ left; exact Hnil | ].
    right. split; [ exact Hdata | ]. exists rec'. tauto.
  - intros Hs.
    destruct (Hcase _ Hs) as [Hnil | (Hdata & rec' & Hrec & Hover)]; [ left; exact Hnil | ].
    right. split; [ exact Hdata | ]. exists rec'. tauto.
Qed.

Lemma trigger_call_arguments_witness :
  [] = ([] : list Value)
  \/ (([] : list Value) = [VString "payload"]
      /\ exists rec,
           (In rec (specificList goDemo "go") \/ In rec (wildcardList goDemo "go"))
           /\ (leaveFunc rec = Some idleLeave \/ enterFunc rec = Some idleLeave)).
Proof.
  apply (trigger_call_arguments goDemo "go" (VString "payload") 7 idleLeave []).
  vm_compute. tauto.
Defined.
